(** * Illusory Line Task condition generator (conditionGenerator.py)

    A shallow embedding of the generator script and the properties of its
    four phases: allocation, reconciliation, shuffle, numbering; then of
    the trial loop of the runner (minimalILM.py), which plays the list.

    Conventions of the embedding.
    - Python [int] is [Z]; [len] is [length] (a [nat], injected in [Z] where
      the script compares it with [total_trials]).
    - A Python [float] is a finite binary64 value, kept exactly as
      [mant * 2 ^ expo]; every operation rounds to 53 significant bits, ties
      to even, as IEEE-754 does.
    - An exception is the [Err] outcome of [result].
    - The module-level generator of [random] is threaded as an explicit
      state; its only primitive is [_randbelow].
    - [total_trials] and [seed], the USER SETTINGS of the script, are
      arguments of the embedding. *)

From Equations Require Import Equations.
From stdpp Require Import base numbers strings pretty list.

Local Open Scope Z_scope.

(** ** Outcomes *)

Inductive exn := IndexError | OverflowError.

Inductive result (A : Type) : Type :=
| Ok (a : A)
| Err (e : exn).
Arguments Ok {A} a.
Arguments Err {A} e.

#[global] Instance result_ret : MRet result := fun A a => Ok a.
#[global] Instance result_bind : MBind result := fun A B f r =>
  match r with
  | Ok a => f a
  | Err e => Err e
  end.

Definition inspect {A} (a : A) : {b | a = b} := exist _ a eq_refl.

(** ** Floats *)

Module Float.

Record float := mk { mant : Z; expo : Z }.

(** [n / d] rounded to the nearest integer, ties to the even one
    ([0 < d]). *)
Definition rne_div (n d : Z) : Z :=
  let q := n `div` d in
  let r := n `mod` d in
  if decide (2 * r < d) then q
  else if decide (d < 2 * r) then q + 1
  else if Z.even q then q else q + 1.

(** Keep 53 significant bits. *)
Definition round53 (f : float) : float :=
  let k := Z.log2 (Z.abs (mant f)) + 1 - 53 in
  if decide (k ≤ 0) then f
  else mk (rne_div (mant f) (2 ^ k)) (expo f + k).

(** The decimal literal [n / 10 ^ digits] with a value in [[1/4, 1/2)],
    where one unit in the last place is [2 ^ -54]. *)
Definition of_literal_quarter (n digits : Z) : float :=
  mk (rne_div (n * 2 ^ 54) (10 ^ digits)) (-54).

(** [float(n)] for an [int]: [OverflowError] from [2 ^ 1024] on. *)
Definition of_int (n : Z) : result float :=
  let f := round53 (mk n 0) in
  if decide (2 ^ 1024 ≤ Z.abs (mant f) * 2 ^ expo f) then Err OverflowError
  else Ok f.

(** [a * b], for a product in the normal range. *)
Definition mul (a b : float) : float :=
  round53 (mk (mant a * mant b) (expo a + expo b)).

(** [round(f)] with one argument: an [int], ties to even. *)
Definition round (f : float) : Z :=
  if decide (0 ≤ expo f) then mant f * 2 ^ expo f
  else rne_div (mant f) (2 ^ (- expo f)).

End Float.

(** ** Factor setup *)

Record trial := mkTrial {
  cueCondition : string;
  lineCondition : string;
  trial_num : option Z
}.

#[global] Instance trial_eq_dec : EqDecision trial.
Proof. solve_decision. Defined.

(** The dict literal [{"cueCondition": cue, "lineCondition": line}]: a fresh
    object at every evaluation, without the key ["trial_num"]. *)
Definition new_trial (cue line : string) : trial := mkTrial cue line None.

Definition cue_conditions : list string := ["cued"; "uncued"].

(** [0.3333333333333] *)
Definition third : Float.float := Float.of_literal_quarter 3333333333333 13.

(** The dict [line_conditions] in insertion order, the order of [.items()]. *)
Definition line_conditions : list (string * Float.float) :=
  [("congruent", third); ("incongruent", third); ("center", third)].

(** ** Allocation phase *)

Definition n_line (total_trials : Z) (proportion : Float.float) : result Z :=
  x ← Float.of_int total_trials;
  mret (Float.round (Float.mul x proportion)).

Definition n_per_cue (total_trials : Z) (proportion : Float.float) : result Z :=
  n ← n_line total_trials proportion;
  mret (n `div` Z.of_nat (length cue_conditions)).

(** [for _ in range(n): trials.append({...})]; [range(n)] is empty for
    [n <= 0]. *)
Fixpoint append_range (n : nat) (cue line : string) (trials : list trial)
  : list trial :=
  match n with
  | O => trials
  | S n' => append_range n' cue line (trials ++ [new_trial cue line])
  end.

(** [for cue in cue_conditions: ...] *)
Fixpoint for_cues (cues : list string) (n : Z) (line : string)
    (trials : list trial) : list trial :=
  match cues with
  | [] => trials
  | cue :: cues' =>
      for_cues cues' n line (append_range (Z.to_nat n) cue line trials)
  end.

(** [for line_type, proportion in line_conditions.items(): ...] *)
Fixpoint for_lines (total_trials : Z) (lines : list (string * Float.float))
    (trials : list trial) : result (list trial) :=
  match lines with
  | [] => Ok trials
  | (line_type, proportion) :: lines' =>
      n ← n_per_cue total_trials proportion;
      for_lines total_trials lines' (for_cues cue_conditions n line_type trials)
  end.

Definition allocate (total_trials : Z) : result (list trial) :=
  for_lines total_trials line_conditions [].

(** ** Output file *)

(** [f"illusory_line_conditions_{total_trials}.csv"]; [pretty] is [str] on
    an [int]: decimal digits, with a leading ["-"] below zero. *)
Definition output_path (total_trials : Z) : string :=
  "illusory_line_conditions_" +:+ pretty total_trials +:+ ".csv".

(** ** A concrete generator

    A linear congruential instance of the interface of [Section Generator]
    below, on which the embedding runs on concrete inputs. *)

Module Lcg.

Definition St : Type := Z.

Definition seed_state (a : Z) : St := a `mod` 2 ^ 64.

Definition next (s : St) : St :=
  (6364136223846793005 * s + 1442695040888963407) `mod` 2 ^ 64.

Definition randbelow (n : nat) (s : St) : nat * St :=
  (Z.to_nat ((next s `div` 2 ^ 33) `mod` Z.of_nat n), next s).

End Lcg.

(** ** A scripted generator

    An instance of the interface whose state is the list of the numbers
    [_randbelow] is going to return, each cut down to the range asked
    for. *)

Module Script.

Definition St : Type := list nat.

Definition seed_state (a : Z) : St := [].

Definition randbelow (n : nat) (s : St) : nat * St :=
  match s with
  | [] => (0%nat, [])
  | j :: s' => (j `min` (n - 1), s')%nat
  end.

End Script.

(** ** The runner (minimalILM.py)

    The part of the runner that consumes the trial list: the stimulus
    parameters of a trial and the rows of data it records. Drawing and
    waiting are left out; the keyboard and the clock are an input. *)

Module Runner.

(** The file [pd.read_csv] takes the trials from. *)
Definition conditions_csv : string :=
  "psychoPY/illusory_line_conditions_100.csv".

(** [cue.pos = (4, 1.1) if cueCondition == "cued" else (-4, 1.1)]: the x
    coordinate. *)
Definition cue_x (cueCondition : string) : Z :=
  if decide (cueCondition = "cued") then 4 else -4.

(** [x_start, x_end, draw_instantly] *)
Definition line_parameters (lineCondition : string) : Z * Z * bool :=
  if decide (lineCondition = "congruent") then (4, -4, false)
  else if decide (lineCondition = "incongruent") then (-4, 4, false)
  else (-4, 4, true).

(** [distance = abs(x_end - x_start)] *)
Definition distance (lineCondition : string) : Z :=
  let '(x_start, x_end, _) := line_parameters lineCondition in
  Z.abs (x_end - x_start).

Section Session.

(** Clock readings, and [min(t / duration, 1.0) >= 1.0] for a line of the
    given [distance], where [duration = distance / speed]. *)
Context {Time : Type}.
Variable line_complete : Z → Time → bool.

(** What the keyboard and the clock give during one trial: for each pass
    of the animation loop whether [event.getKeys(['escape'])] is non-empty
    and then [clock.getTime()]; after the animation the value of
    [event.waitKeys(maxWait=2, keyList=['q', 'p', 'escape'],
    timeStamped=clock)]. *)
Record events := mkEvents {
  frames : list (bool * Time);
  keys : option (list (string * Time))
}.

(** One entry of the experiment handler. *)
Record row := mkRow {
  trial_n : Z;
  row_cue : string;
  row_line : string;
  response : option string;
  rt : option Time
}.

(** How a session ends: [Saved] when the script gets past the trial loop,
    to its calls of [saveAsWideText] and [saveAsPickle]; [Quit] at the
    [core.quit()] that follows an escape poll; [Aborted] at the
    [thisExp.abort()] that follows an escape response; an exception; or
    the input used up while the script still waits. What the experiment
    handler writes to disk at any of them is not part of the embedding. *)
Inductive ending :=
| Saved
| Quit
| Aborted
| Raised (e : exn)
| Waiting.

(** The loop [while True: ...] that draws the line: [Some true] when it
    breaks, [Some false] when it quits. *)
Fixpoint animate (draw_instantly : bool) (distance : Z)
    (fs : list (bool * Time)) : option bool :=
  match fs with
  | [] => None
  | (escape, t) :: fs' =>
      if escape then Some false
      else if draw_instantly then Some true
      else if line_complete distance t then Some true
      else animate draw_instantly distance fs'
  end.

(** From [keys = event.waitKeys(...)] to [thisExp.nextEntry()]. *)
Definition record_response (i : Z) (t : trial)
    (ks : option (list (string * Time))) : row + ending :=
  match ks with
  | None => inl (mkRow i (cueCondition t) (lineCondition t) None None)
  | Some [] => inr (Raised IndexError)
  | Some ((key, time) :: _) =>
      if decide (key = "escape") then inr Aborted
      else inl (mkRow i (cueCondition t) (lineCondition t)
                      (Some key) (Some time))
  end.

(** [for i, trial in enumerate(trials, start=i): ...], up to the lines that
    follow the loop. *)
Fixpoint run_from (i : Z) (trials : list trial) (input : list events)
  : list row * ending :=
  match trials with
  | [] => ([], Saved)
  | t :: trials' =>
      match input with
      | [] => ([], Waiting)
      | ev :: input' =>
          let draw_instantly := (line_parameters (lineCondition t)).2 in
          match animate draw_instantly (distance (lineCondition t))
                        (frames ev) with
          | None => ([], Waiting)
          | Some false => ([], Quit)
          | Some true =>
              match record_response i t (keys ev) with
              | inr e => ([], e)
              | inl r =>
                  let '(rows, e) := run_from (i + 1) trials' input' in
                  (r :: rows, e)
              end
          end
      end
  end.

(** The session after the instruction screen; [start_escape] tells whether
    [event.getKeys(['escape'])] is non-empty there. *)
Definition run (start_escape : bool) (trials : list trial)
    (input : list events) : list row * ending :=
  if start_escape then ([], Quit) else run_from 1 trials input.

(** What the body of the trial loop comes to for one trial: the row it
    records, or the way the session is left in it. *)
Definition trial_outcome (i : Z) (t : trial) (ev : events) : row + ending :=
  match animate (line_parameters (lineCondition t)).2
                (distance (lineCondition t)) (frames ev) with
  | None => inr Waiting
  | Some false => inr Quit
  | Some true => record_response i t (keys ev)
  end.

(** The conditions a row is recorded with. *)
Definition row_conditions (r : row) : Z * string * string :=
  (trial_n r, row_cue r, row_line r).

(** A trial during which nobody asks to leave: the line gets drawn, and
    the response is a timeout or a key other than escape. *)
Definition undisturbed (t : trial) (ev : events) : Prop :=
  animate (line_parameters (lineCondition t)).2 (distance (lineCondition t))
          (frames ev) = Some true ∧
  (keys ev = None ∨
   ∃ key time rest, keys ev = Some ((key, time) :: rest) ∧ key ≠ "escape").

End Session.

End Runner.

(** ** The script *)

Section Generator.

(** The state of the module-level generator of [random], [random.seed(a)]
    and [_randbelow(n)], which returns an [int] in [[0, n)] for [0 < n]. *)
Variable St : Type.
Variable seed_state : Z → St.
Variable randbelow : nat → St → nat * St.
Hypothesis randbelow_range : ∀ n s, (0 < n)%nat → ((randbelow n s).1 < n)%nat.

(** [random.choice(seq)], that is [seq[_randbelow(len(seq))]]. *)
Definition choice {A} (seq : list A) (s : St) : result (A * St) :=
  if decide (length seq = 0%nat) then Err IndexError
  else
    let '(j, s') := randbelow (length seq) s in
    match seq !! j with
    | Some x => Ok (x, s')
    | None => Err IndexError
    end.

(** *** Reconciliation phase *)

(** One iteration of [while len(trials) < total_trials]. *)
Definition under_body (s : St) (trials : list trial)
  : result (St * list trial) :=
  '(cue, s1) ← choice cue_conditions s;
  '(line, s2) ← choice ["congruent"; "incongruent"] s1;
  mret (s2, trials ++ [new_trial cue line]).

Equations? under_loop (total_trials : Z) (s : St) (trials : list trial)
  : result (St * list trial)
  by wf (Z.to_nat (total_trials - Z.of_nat (length trials))) lt :=
  under_loop total_trials s trials
    with decide (Z.of_nat (length trials) < total_trials) := {
    | right _ := Ok (s, trials)
    | left _ with inspect (under_body s trials) := {
        | exist _ (Err e) _ := Err e
        | exist _ (Ok (s', trials')) _ :=
            under_loop total_trials s' trials' } }.
Proof.
  clear under_loop randbelow_range. unfold under_body in e.
  destruct (choice cue_conditions s) as [[cue s1]|]; [|discriminate].
  simpl in e.
  destruct (choice _ s1) as [[line s2]|]; [|discriminate].
  injection e as _ <-. rewrite length_app. simpl. lia.
Qed.

(** [next((i for i, t in enumerate(trials)
           if t["lineCondition"] == "center"), 0)] *)
Definition first_center (trials : list trial) : nat :=
  match list_find (λ t, lineCondition t = "center") trials with
  | Some (i, _) => i
  | None => 0%nat
  end.

(** [del trials[idx]] for [0 <= idx]. *)
Definition del (idx : nat) (trials : list trial) : result (list trial) :=
  if decide (idx < length trials)%nat then Ok (delete idx trials)
  else Err IndexError.

(** One iteration of [while len(trials) > total_trials]. *)
Definition over_body (trials : list trial) : result (list trial) :=
  let idx := first_center trials in
  del idx trials.

Equations? over_loop (total_trials : Z) (trials : list trial)
  : result (list trial) by wf (length trials) lt :=
  over_loop total_trials trials
    with decide (total_trials < Z.of_nat (length trials)) := {
    | right _ := Ok trials
    | left _ with inspect (over_body trials) := {
        | exist _ (Err e) _ := Err e
        | exist _ (Ok trials') _ := over_loop total_trials trials' } }.
Proof.
  clear over_loop randbelow_range. unfold over_body, del in e.
  case_decide; [|discriminate]. injection e as <-.
  rewrite length_delete; [lia|]. by apply lookup_lt_is_Some_2.
Qed.

(** Both loops, in the order of the script. *)
Definition reconcile (total_trials : Z) (s : St) (trials : list trial)
  : result (St * list trial) :=
  '(s1, trials1) ← under_loop total_trials s trials;
  trials2 ← over_loop total_trials trials1;
  mret (s1, trials2).

(** *** Shuffle and number *)

(** [x[i], x[j] = x[j], x[i]] *)
Definition swap {A} (i j : nat) (x : list A) : result (list A) :=
  match x !! j, x !! i with
  | Some xj, Some xi => Ok (<[j := xi]> (<[i := xj]> x))
  | _, _ => Err IndexError
  end.

(** The iterations [i = n, n - 1, ..., 1] of
    [for i in reversed(range(1, len(x))):
         j = randbelow(i + 1); x[i], x[j] = x[j], x[i]]. *)
Fixpoint shuffle_from {A} (n : nat) (s : St) (x : list A)
  : result (St * list A) :=
  match n with
  | O => Ok (s, x)
  | S n' =>
      let '(j, s') := randbelow (S n) s in
      x' ← swap n j x;
      shuffle_from n' s' x'
  end.

(** [random.shuffle(x)] *)
Definition shuffle {A} (s : St) (x : list A) : result (St * list A) :=
  shuffle_from (length x - 1) s x.

(** [t["trial_num"] = i] *)
Definition set_trial_num (t : trial) (i : Z) : trial :=
  mkTrial (cueCondition t) (lineCondition t) (Some i).

(** [for i, t in enumerate(trials, i): t["trial_num"] = i]. Every element
    of [trials] is a dict of its own, so each assignment reaches one
    element. *)
Fixpoint number (i : Z) (trials : list trial) : list trial :=
  match trials with
  | [] => []
  | t :: trials' => set_trial_num t i :: number (i + 1) trials'
  end.

(** *** The whole script, up to the list handed to [pl.DataFrame]

    [s0] is the generator state at start-up, which no seed determines. *)
Definition generate (s0 : St) (seed total_trials : Z)
  : result (list trial) :=
  trials ← allocate total_trials;
  '(_, trials) ← reconcile total_trials s0 trials;
  let s2 := seed_state seed in
  '(_, trials) ← shuffle s2 trials;
  mret (number 1 trials).

(** *** Vocabulary of the properties *)

(** A record as the under-shoot loop appends it. *)
Definition appended (t : trial) : Prop :=
  cueCondition t ∈ cue_conditions ∧
  lineCondition t ∈ ["congruent"; "incongruent"] ∧
  trial_num t = None.

(** *** Over-shoot *)

Definition is_center (t : trial) : Prop := lineCondition t = "center".

(** *** Numbering *)

Definition fields (t : trial) : string * string :=
  (cueCondition t, lineCondition t).

(** *** Allocation *)

Definition level_block (n : Z) (line cue : string) : list trial :=
  replicate (Z.to_nat n) (new_trial cue line).

(** The records one category contributes. *)
Definition category_block (n : Z) (line : string) : list trial :=
  cue_conditions ≫= level_block n line.

(** The closed form of the allocated list when every category gets [k]
    records per cue condition. *)
Definition allocated (k : Z) : list trial :=
  category_block k "congruent" ++ category_block k "incongruent"
    ++ category_block k "center".

(** *** Counting records *)

Definition count (cue line : string) (trials : list trial) : nat :=
  length (filter (λ t, fields t = (cue, line)) trials).

Definition appears (cue line : string) (trials : list trial) : Prop :=
  (cue, line) ∈ fields <$> trials.

(** A record over the vocabulary of the script. *)
Definition well_formed (t : trial) : Prop :=
  cueCondition t ∈ cue_conditions ∧ lineCondition t ∈ line_conditions.*1.

(** ** Properties *)

(** *** Rounding *)

Lemma rne_div_error n d :
  0 < d → - d ≤ 2 * (Float.rne_div n d * d - n) ≤ d.
Proof.
  intros Hd. unfold Float.rne_div.
  pose proof (Z.div_mod n d ltac:(lia)) as Hnd.
  pose proof (Z.mod_pos_bound n d Hd) as Hr.
  repeat case_decide; try destruct (Z.even _); nia.
Qed.

Lemma rne_div_sign n d :
  0 < d →
  (0 ≤ n → 0 ≤ Float.rne_div n d) ∧ (n ≤ 0 → Float.rne_div n d ≤ 0).
Proof.
  intros Hd. unfold Float.rne_div.
  pose proof (Z.div_mod n d ltac:(lia)) as Hnd.
  pose proof (Z.mod_pos_bound n d Hd) as Hr.
  split; intros Hn.
  - assert (0 ≤ n `div` d) by (apply Z.div_pos; lia).
    repeat case_decide; try destruct (Z.even _); lia.
  - destruct (decide (n = 0)) as [->|Hne].
    + rewrite Z.mod_0_l, Z.div_0_l by lia.
      repeat case_decide; simpl; lia.
    + assert (n `div` d < 0) by (apply Z.div_lt_upper_bound; lia).
      repeat case_decide; try destruct (Z.even _); lia.
Qed.

Lemma round53_error f :
  ∃ k, 0 ≤ k ∧
       Float.expo (Float.round53 f) = Float.expo f + k ∧
       2 ^ 53 * Z.abs (Float.mant (Float.round53 f) * 2 ^ k - Float.mant f)
         ≤ Z.abs (Float.mant f) ∧
       (0 ≤ Float.mant f → 0 ≤ Float.mant (Float.round53 f)) ∧
       (Float.mant f ≤ 0 → Float.mant (Float.round53 f) ≤ 0).
Proof.
  destruct f as [a e]. unfold Float.round53. cbn [Float.mant Float.expo].
  set (k := Z.log2 (Z.abs a) + 1 - 53).
  destruct (decide (k ≤ 0)) as [Hk|Hk]; cbn [Float.mant Float.expo].
  { exists 0. split_and!; [lia|lia| |done..].
    rewrite Z.pow_0_r, Z.mul_1_r, Z.sub_diag. simpl. lia. }
  exists k. assert (0 < Z.abs a) as Ha.
  { destruct (decide (a = 0)) as [->|]; [|lia]. by destruct Hk. }
  pose proof (Z.log2_spec _ Ha) as [Hlo _].
  assert (0 < 2 ^ k) as Hd by (apply Z.pow_pos_nonneg; lia).
  pose proof (rne_div_error a (2 ^ k) Hd) as Herr.
  pose proof (rne_div_sign a (2 ^ k) Hd) as [Hpos Hneg].
  replace (Z.log2 (Z.abs a)) with (52 + k) in Hlo by (subst k; lia).
  rewrite Z.pow_add_r in Hlo by lia.
  split_and!; [lia|done| |done..].
  assert (2 ^ 53 = 2 * 2 ^ 52) as -> by done. lia.
Qed.

Lemma of_int_ok total :
  Z.abs total < 2 ^ 1023 →
  Float.of_int total = Ok (Float.round53 (Float.mk total 0)).
Proof.
  intros Htot. unfold Float.of_int.
  destruct (round53_error (Float.mk total 0)) as (k & Hk & -> & Herr & _).
  cbn [Float.mant Float.expo] in *. rewrite Z.add_0_l.
  assert (0 < 2 ^ k) as Hd by (apply Z.pow_pos_nonneg; lia).
  rewrite decide_False; [done|].
  rewrite <- (Z.abs_eq (2 ^ k)), <- Z.abs_mul by lia.
  assert (2 ^ 1024 = 2 * 2 ^ 1023) as -> by done.
  assert (0 < 2 ^ 53) by done. nia.
Qed.

Lemma of_int_inv total x :
  Float.of_int total = Ok x → x = Float.round53 (Float.mk total 0).
Proof. unfold Float.of_int. case_decide; congruence. Qed.

Lemma n_line_sign total p n :
  0 ≤ Float.mant p → n_line total p = Ok n →
  (0 ≤ total → 0 ≤ n) ∧ (total ≤ 0 → n ≤ 0).
Proof.
  intros Hp. unfold n_line.
  destruct (Float.of_int total) as [x|] eqn:Hx; [|done].
  apply of_int_inv in Hx as ->. intros [= <-].
  destruct (round53_error (Float.mk total 0)) as (_ & _ & _ & _ & Hx1 & Hx2).
  unfold Float.mul. set (x := Float.round53 (Float.mk total 0)) in *.
  destruct (round53_error (Float.mk (Float.mant x * Float.mant p)
                                    (Float.expo x + Float.expo p)))
    as (_ & _ & _ & _ & Hy1 & Hy2).
  cbn [Float.mant Float.expo] in *. unfold Float.round.
  set (y := Float.round53 (Float.mk (Float.mant x * Float.mant p) _)) in *.
  assert (0 < 2 ^ (- Float.expo y) ∨ 0 ≤ Float.expo y) as Hd.
  { destruct (decide (0 ≤ Float.expo y)); [by right|left].
    apply Z.pow_pos_nonneg; lia. }
  assert (0 ≤ 2 ^ Float.expo y) by (apply Z.pow_nonneg; lia).
  split; intros Htot; case_decide.
  - apply Z.mul_nonneg_nonneg; [|done]. apply Hy1. nia.
  - destruct Hd as [Hd|]; [|lia]. apply rne_div_sign; [done|].
    apply Hy1. nia.
  - apply Z.mul_nonpos_nonneg; [|done]. apply Hy2. nia.
  - destruct Hd as [Hd|]; [|lia]. apply rne_div_sign; [done|].
    apply Hy2. nia.
Qed.

Lemma third_eq : third = Float.mk 6004799503160061 (-54).
Proof. by vm_compute. Qed.

(** The three rounded shares exceed [total_trials] by one at most. *)
Lemma n_line_upper total n :
  0 < total → n_line total third = Ok n → 3 * n ≤ total + 1.
Proof.
  intros Htot. unfold n_line.
  destruct (Float.of_int total) as [x|] eqn:Hx; [|done].
  apply of_int_inv in Hx as ->. intros [= <-].
  destruct (round53_error (Float.mk total 0))
    as (k1 & Hk1 & He1 & Herr1 & Hpos1 & _).
  unfold Float.mul. rewrite third_eq.
  set (x := Float.round53 (Float.mk total 0)) in *.
  destruct (round53_error (Float.mk (Float.mant x * 6004799503160061)
                                    (Float.expo x + -54)))
    as (k2 & Hk2 & He2 & Herr2 & Hpos2 & _).
  cbn [Float.mant Float.expo] in *.
  set (y := Float.round53 (Float.mk (Float.mant x * _) _)) in *.
  specialize (Hpos1 ltac:(lia)). specialize (Hpos2 ltac:(lia)).
  set (m := 6004799503160061) in *. set (c := 2 ^ 53) in *.
  set (W := 2 ^ 54).
  assert (0 < m ∧ 0 < c ∧ 0 < W ∧ 3 * ((c + 1) * (c + 1) * m) < c * c * W)
    as (Hm & Hc & HW & HK) by done.
  set (A := 2 ^ k1) in *. set (B := 2 ^ k2) in *.
  assert (0 < A) as HA by (apply Z.pow_pos_nonneg; lia).
  assert (0 < B) as HB by (apply Z.pow_pos_nonneg; lia).
  assert (A * B = 2 ^ (k1 + k2)) as HAB.
  { subst A B. by rewrite Z.pow_add_r by lia. }
  set (a1 := Float.mant x) in *. set (a2 := Float.mant y) in *.
  assert (c * (a1 * A) ≤ (c + 1) * total) as H1 by lia.
  assert (c * (a2 * B) ≤ (c + 1) * (a1 * m)) as H2 by lia.
  clear Herr1 Herr2.
  assert (2 * Float.round y * W ≤ 2 * (a2 * (A * B)) + W) as Hn.
  { unfold Float.round. rewrite He2, He1. fold a2. case_decide as He.
    - enough (a2 * 2 ^ (0 + k1 + -54 + k2) * W = a2 * (A * B)) by lia.
      subst W. rewrite HAB, <- Z.mul_assoc, <- Z.pow_add_r by lia.
      do 2 f_equal. lia.
    - set (D := 2 ^ (- (0 + k1 + -54 + k2))).
      assert (0 < D) as HD by (apply Z.pow_pos_nonneg; lia).
      assert (D * (A * B) = W) as <-.
      { subst D W. rewrite HAB, <- Z.pow_add_r by lia. f_equal. lia. }
      pose proof (rne_div_error a2 D HD) as [_ Hn].
      assert (0 < A * B) by lia. nia. }
  clear HAB. clearbody m c W A B a1 a2.
  set (n := Float.round y) in *. clearbody n. clear He1 He2 x y.
  assert (c * A * (c * (a2 * B)) ≤ c * A * ((c + 1) * (a1 * m))) as E1
    by (apply Z.mul_le_mono_nonneg_l; lia).
  assert ((c + 1) * m * (c * (a1 * A)) ≤ (c + 1) * m * ((c + 1) * total))
    as E2 by (apply Z.mul_le_mono_nonneg_l; lia).
  assert (c * c * (a2 * (A * B)) ≤ (c + 1) * (c + 1) * m * total) as H3
    by lia.
  clear E1 E2 H1 H2.
  set (V := a2 * (A * B)) in *. clearbody V.
  set (K1 := (c + 1) * (c + 1) * m) in *. set (K2 := c * c) in *.
  assert (0 < K2) by (subst K2; lia). clearbody K1 K2.
  assert (K2 * (2 * n * W) ≤ 2 * (K1 * total) + K2 * W) as H4 by nia.
  assert (3 * (K1 * total) < K2 * W * total) as H5 by nia.
  assert (K2 * W * (6 * n) < K2 * W * (2 * total + 3)) as H6 by lia.
  apply Z.mul_lt_mono_pos_l in H6; lia.
Qed.

(** *** The loops, one iteration at a time *)

Lemma under_loop_eq total s trials :
  under_loop total s trials =
    if decide (Z.of_nat (length trials) < total)
    then '(s', trials') ← under_body s trials; under_loop total s' trials'
    else Ok (s, trials).
Proof.
  simp under_loop. destruct (decide _) as [H|H]; simpl; [|done].
  by destruct (under_body s trials) as [[? ?]|?].
Qed.

Lemma over_loop_eq total trials :
  over_loop total trials =
    if decide (total < Z.of_nat (length trials))
    then trials' ← over_body trials; over_loop total trials'
    else Ok trials.
Proof.
  simp over_loop. destruct (decide _) as [H|H]; simpl; [|done].
  by destruct (over_body trials).
Qed.

(** *** Under-shoot *)

Lemma choice_ok {A} (seq : list A) s :
  seq ≠ [] → ∃ x s', choice seq s = Ok (x, s') ∧ x ∈ seq.
Proof.
  intros Hne. unfold choice.
  destruct (decide (length seq = 0%nat)) as [H0|H0].
  { by destruct seq. }
  pose proof (randbelow_range (length seq) s ltac:(lia)) as Hj.
  destruct (randbelow (length seq) s) as [j s']. simpl in Hj.
  destruct (lookup_lt_is_Some_2 seq j Hj) as [x Hx].
  rewrite Hx. exists x, s'. split; [done|].
  by eapply list_elem_of_lookup_2.
Qed.

Lemma under_body_ok s trials :
  ∃ s' t, under_body s trials = Ok (s', trials ++ [t]) ∧ appended t.
Proof.
  unfold under_body.
  destruct (choice_ok cue_conditions s) as (cue & s1 & -> & Hcue); [done|].
  destruct (choice_ok ["congruent"; "incongruent"] s1)
    as (line & s2 & Hl & Hline); [done|].
  simpl. rewrite Hl. simpl.
  exists s2, (new_trial cue line). by repeat split.
Qed.

Lemma under_loop_ok total : ∀ (n : nat) s trials,
  n = Z.to_nat (total - Z.of_nat (length trials)) →
  ∃ s' added,
    under_loop total s trials = Ok (s', trials ++ added) ∧
    length added = n ∧ Forall appended added.
Proof.
  induction n as [|n IH]; intros s trials Hn; rewrite under_loop_eq.
  - rewrite decide_False by lia. exists s, [].
    by rewrite app_nil_r.
  - rewrite decide_True by lia.
    destruct (under_body_ok s trials) as (s1 & t & -> & Ht). simpl.
    destruct (IH s1 (trials ++ [t])) as (s' & added & -> & Hlen & Hall).
    { rewrite length_app. simpl. lia. }
    exists s', (t :: added). rewrite <- app_assoc. simpl.
    split_and!; [done|lia|by constructor].
Qed.

Lemma first_center_here l1 t l2 :
  Forall (λ t, ¬ is_center t) l1 → is_center t →
  first_center (l1 ++ t :: l2) = length l1.
Proof.
  intros Hl1 Ht. unfold first_center.
  destruct (list_find _ _) as [[i x]|] eqn:Hfind.
  - apply list_find_Some in Hfind as (Hi & Hx & Hmin).
    destruct (decide (i < length l1)%nat) as [Hlt|Hge].
    + rewrite lookup_app_l in Hi by done.
      rewrite Forall_lookup in Hl1. by destruct (Hl1 _ _ Hi).
    + destruct (decide (i = length l1)) as [->|Hne]; [done|].
      destruct (Hmin (length l1) t); [|lia|done].
      by rewrite list_lookup_middle.
  - apply list_find_None in Hfind.
    apply Forall_app in Hfind as [_ Hfind].
    by inversion Hfind.
Qed.

Lemma first_center_none trials :
  Forall (λ t, ¬ is_center t) trials → first_center trials = 0%nat.
Proof.
  intros Hall. unfold first_center.
  destruct (list_find _ _) as [[i x]|] eqn:Hfind; [|done].
  apply list_find_Some in Hfind as (Hi & Hx & _).
  rewrite Forall_lookup in Hall. by destruct (Hall _ _ Hi).
Qed.

Lemma over_body_center l1 t l2 :
  Forall (λ t, ¬ is_center t) l1 → is_center t →
  over_body (l1 ++ t :: l2) = Ok (l1 ++ l2).
Proof.
  intros Hl1 Ht. unfold over_body, del.
  rewrite first_center_here by done.
  rewrite decide_True by (rewrite length_app; simpl; lia).
  f_equal. rewrite delete_middle. done.
Qed.

Lemma over_body_fallback t trials :
  Forall (λ t, ¬ is_center t) (t :: trials) →
  over_body (t :: trials) = Ok trials.
Proof.
  intros Hall. unfold over_body, del.
  rewrite first_center_none by done.
  by rewrite decide_True by (simpl; lia).
Qed.

Lemma over_body_empty : over_body [] = Err IndexError.
Proof. done. Qed.

Lemma first_center_lt trials :
  trials ≠ [] → (first_center trials < length trials)%nat.
Proof.
  intros Hne. unfold first_center.
  destruct (list_find _ _) as [[i x]|] eqn:Hfind.
  - apply list_find_Some in Hfind as (Hi & _). by eapply lookup_lt_Some.
  - destruct trials; [done|simpl; lia].
Qed.

Lemma over_body_ok trials :
  trials ≠ [] →
  ∃ trials', over_body trials = Ok trials' ∧
             S (length trials') = length trials ∧ trials' ⊆+ trials.
Proof.
  intros Hne. pose proof (first_center_lt trials Hne) as Hlt.
  unfold over_body, del. rewrite decide_True by done.
  eexists. split; [done|]. split.
  - rewrite length_delete; [lia|]. by apply lookup_lt_is_Some_2.
  - apply sublist_submseteq, sublist_delete.
Qed.

Lemma over_loop_ok total : ∀ (n : nat) trials,
  0 ≤ total → n = length trials →
  ∃ trials', over_loop total trials = Ok trials' ∧
             Z.of_nat (length trials') = Z.min total (Z.of_nat n) ∧
             trials' ⊆+ trials.
Proof.
  intros n trials Htot. revert trials.
  induction n as [|n IH]; intros trials Hn; rewrite over_loop_eq.
  - rewrite decide_False by lia. exists trials. split_and!; [done|lia|done].
  - destruct (decide (total < Z.of_nat (length trials))) as [Hgt|Hle].
    + destruct (over_body_ok trials) as (t1 & -> & Hlen & Hsub).
      { by destruct trials. }
      simpl. destruct (IH t1) as (t2 & -> & Hlen2 & Hsub2); [lia|].
      exists t2. split_and!; [done|lia|by etrans].
    + exists trials. split_and!; [done|lia|done].
Qed.

(** *** Shuffle *)

Lemma insert_head_perm {A} (l : list A) j a b :
  l !! j = Some b → b :: <[j := a]> l ≡ₚ a :: l.
Proof.
  revert j. induction l as [|c l IH]; intros [|j] Hj; simplify_eq/=.
  - apply perm_swap.
  - rewrite perm_swap, (IH j Hj). apply perm_swap.
Qed.

Lemma insert_insert_perm {A} (x : list A) i j xi xj :
  x !! i = Some xi → x !! j = Some xj →
  <[j := xi]> (<[i := xj]> x) ≡ₚ x.
Proof.
  revert i j. induction x as [|a x IH]; intros [|i] [|j] Hi Hj;
    simplify_eq/=; [done| | |].
  - by apply insert_head_perm.
  - by apply insert_head_perm.
  - by rewrite (IH i j).
Qed.

Lemma swap_ok {A} (x : list A) i j :
  (i < length x)%nat → (j < length x)%nat →
  ∃ x', swap i j x = Ok x' ∧ x' ≡ₚ x.
Proof.
  intros Hi Hj. unfold swap.
  destruct (lookup_lt_is_Some_2 x i Hi) as [xi Hxi].
  destruct (lookup_lt_is_Some_2 x j Hj) as [xj Hxj].
  rewrite Hxi, Hxj. eexists. split; [done|].
  by apply insert_insert_perm.
Qed.

Lemma shuffle_from_ok {A} : ∀ (n : nat) s (x : list A),
  n = 0%nat ∨ (n < length x)%nat →
  ∃ s' x', shuffle_from n s x = Ok (s', x') ∧ x' ≡ₚ x.
Proof.
  induction n as [|n IH]; intros s x Hn; simpl.
  { by exists s, x. }
  destruct Hn as [|Hn]; [done|].
  pose proof (randbelow_range (S (S n)) s ltac:(lia)) as Hj.
  destruct (randbelow (S (S n)) s) as [j s1]. simpl in Hj.
  destruct (swap_ok x (S n) j) as (x1 & -> & Hperm); [lia..|]. simpl.
  destruct (IH s1 x1) as (s' & x' & -> & Hperm').
  { right. rewrite Hperm. lia. }
  exists s', x'. split; [done|]. by etrans.
Qed.

Lemma shuffle_ok {A} s (x : list A) :
  ∃ s' x', shuffle s x = Ok (s', x') ∧ x' ≡ₚ x.
Proof.
  apply shuffle_from_ok. destruct x; [by left|right; simpl; lia].
Qed.

Lemma number_fields i trials : fields <$> number i trials = fields <$> trials.
Proof.
  revert i. induction trials as [|t trials IH]; intros i; [done|].
  simpl. by rewrite IH.
Qed.

Lemma number_length i trials : length (number i trials) = length trials.
Proof.
  revert i. induction trials as [|t trials IH]; intros i; [done|].
  simpl. by rewrite IH.
Qed.

Lemma number_nums i trials :
  trial_num <$> number i trials = Some <$> seqZ i (Z.of_nat (length trials)).
Proof.
  revert i. induction trials as [|t trials IH]; intros i; [done|].
  rewrite seqZ_cons by (simpl; lia). simpl. rewrite IH.
  do 3 f_equal. lia.
Qed.

Lemma append_range_eq n cue line trials :
  append_range n cue line trials = trials ++ replicate n (new_trial cue line).
Proof.
  revert trials. induction n as [|n IH]; intros trials; simpl.
  - by rewrite app_nil_r.
  - rewrite IH, <- app_assoc. done.
Qed.

Lemma for_cues_eq cues n line trials :
  for_cues cues n line trials = trials ++ (cues ≫= level_block n line).
Proof.
  revert trials. induction cues as [|cue cues IH]; intros trials; simpl.
  - by rewrite app_nil_r.
  - rewrite IH, append_range_eq, <- app_assoc. done.
Qed.

Lemma for_lines_cons total line p lines trials :
  for_lines total ((line, p) :: lines) trials =
    n ← n_per_cue total p;
    for_lines total lines (trials ++ category_block n line).
Proof.
  cbn [for_lines]. destruct (n_per_cue total p); [|done].
  unfold mbind, result_bind. by rewrite for_cues_eq.
Qed.

Lemma for_lines_eq total lines : ∀ trials l,
  for_lines total lines trials = Ok l ↔
  ∃ ns, Forall2 (λ lp n, n_per_cue total lp.2 = Ok n) lines ns ∧
        l = trials ++ mjoin (zip_with (λ lp n, category_block n lp.1) lines ns).
Proof.
  induction lines as [|[line p] lines IH]; intros trials l.
  - split.
    + intros [= <-]. exists []. split; [constructor|]. by rewrite app_nil_r.
    + intros (ns & Hns & ->). inversion Hns. simpl. by rewrite app_nil_r.
  - rewrite for_lines_cons. split.
    + destruct (n_per_cue total p) as [n|] eqn:Hn; [|done].
      intros (ns & Hns & ->)%IH. exists (n :: ns). split; [by constructor|].
      by rewrite <- app_assoc.
    + intros (ns & Hns & ->). inversion Hns as [|? n ? ns' Hn Hns']; subst.
      cbn [snd] in Hn. rewrite Hn. apply IH. exists ns'. split; [done|].
      cbn [zip_with mjoin list_join fst]. by rewrite <- app_assoc.
Qed.

Lemma over_loop_inv total : ∀ (n : nat) trials l,
  n = length trials → over_loop total trials = Ok l →
  Z.of_nat (length l) = Z.min total (Z.of_nat n) ∧ l ⊆+ trials.
Proof.
  induction n as [|n IH]; intros trials l Hn; rewrite over_loop_eq.
  - destruct trials; [|done]. case_decide; [done|].
    intros [= <-]. simpl in *. split; [lia|done].
  - case_decide as Hgt.
    + destruct (over_body_ok trials) as (t1 & -> & Hlen & Hsub).
      { by destruct trials. }
      simpl. intros [Hl Hsub2]%IH; [|lia]. split; [lia|by etrans].
    + intros [= <-]. split; [lia|done].
Qed.

Lemma over_loop_stop total trials :
  Z.of_nat (length trials) ≤ total → over_loop total trials = Ok trials.
Proof. intros. rewrite over_loop_eq. by rewrite decide_False by lia. Qed.

(** *** The pipeline *)

Lemma reconcile_ok total s trials :
  0 ≤ total →
  ∃ s' r, reconcile total s trials = Ok (s', r) ∧
          Z.of_nat (length r) = total.
Proof.
  intros Htot. unfold reconcile.
  destruct (under_loop_ok total _ s trials eq_refl)
    as (s1 & added & -> & Hlen & _). simpl.
  destruct (over_loop_ok total _ (trials ++ added) Htot eq_refl)
    as (r & -> & Hr & _). simpl.
  exists s1, r. split; [done|]. rewrite Hr, length_app. lia.
Qed.

Lemma reconcile_inv total s trials s' r :
  reconcile total s trials = Ok (s', r) → Z.of_nat (length r) = total.
Proof.
  unfold reconcile.
  destruct (under_loop_ok total _ s trials eq_refl)
    as (s1 & added & -> & Hlen & _). simpl.
  destruct (over_loop total _) as [r'|] eqn:Hover; [|done].
  intros [= _ <-]. apply (over_loop_inv _ _ _ _ eq_refl) in Hover as [Hr _].
  rewrite Hr, length_app. lia.
Qed.

Lemma generate_inv s0 seed total out :
  generate s0 seed total = Ok out →
  ∃ a s1 r s3 sh,
    allocate total = Ok a ∧ reconcile total s0 a = Ok (s1, r) ∧
    shuffle (seed_state seed) r = Ok (s3, sh) ∧ out = number 1 sh.
Proof.
  unfold generate.
  destruct (allocate total) as [a|] eqn:Ha; [|done]. simpl.
  destruct (reconcile total s0 a) as [[s1 r]|] eqn:Hr; [|done]. simpl.
  destruct (shuffle (seed_state seed) r) as [[s3 sh]|] eqn:Hsh; [|done].
  intros [= <-]. by exists a, s1, r, s3, sh.
Qed.

Lemma generate_steps s0 seed total a s1 r :
  allocate total = Ok a → reconcile total s0 a = Ok (s1, r) →
  ∃ s3 sh, shuffle (seed_state seed) r = Ok (s3, sh) ∧ sh ≡ₚ r ∧
           generate s0 seed total = Ok (number 1 sh).
Proof.
  intros Ha Hr. unfold generate. rewrite Ha. simpl. rewrite Hr. simpl.
  destruct (shuffle_ok (seed_state seed) r) as (s3 & sh & Hsh & Hperm).
  rewrite Hsh. by exists s3, sh.
Qed.

Lemma allocate_third total n :
  n_line total third = Ok n → allocate total = Ok (allocated (n `div` 2)).
Proof.
  intros Hn. unfold allocate, line_conditions, allocated.
  assert (n_per_cue total third = Ok (n `div` 2)) as Hk.
  { unfold n_per_cue. by rewrite Hn. }
  do 3 (rewrite for_lines_cons, Hk; unfold mbind at 1, result_bind at 1).
  cbn [for_lines]. by rewrite app_nil_l, app_assoc.
Qed.

Lemma n_line_ok total :
  Z.abs total < 2 ^ 1023 → ∃ n, n_line total third = Ok n.
Proof. intros Htot. unfold n_line. rewrite of_int_ok by done. by eexists. Qed.

(** ** The claims *)

(** C1. Cardinality: for every positive [total_trials] in the range of a
    float, the script builds a list, the reconciled list has exactly
    [total_trials] records, and so has the final list. *)
Theorem cardinality s0 seed total :
  0 < total < 2 ^ 1023 →
  ∃ a s1 r out,
    allocate total = Ok a ∧
    reconcile total s0 a = Ok (s1, r) ∧ Z.of_nat (length r) = total ∧
    generate s0 seed total = Ok out ∧ Z.of_nat (length out) = total.
Proof.
  intros Htot.
  destruct (n_line_ok total) as [n Hn]; [lia|].
  pose proof (allocate_third _ _ Hn) as Ha.
  destruct (reconcile_ok total s0 (allocated (n `div` 2)))
    as (s1 & r & Hr & Hlen); [lia|].
  destruct (generate_steps s0 seed _ _ _ _ Ha Hr)
    as (s3 & sh & _ & Hperm & Hgen).
  exists (allocated (n `div` 2)), s1, r, (number 1 sh).
  split_and!; [done..|]. by rewrite number_length, Hperm.
Qed.

(** C2. Sequence integrity: whenever the script builds a list, the
    sequence numbers read in list order are [1, 2, ..., total_trials]: the
    record at index [i] carries [i + 1], no number occurs twice, and the
    numbers that occur are exactly those from [1] to [total_trials],
    whatever the cue and line conditions of the records. *)
Theorem sequence_integrity s0 seed total out :
  generate s0 seed total = Ok out →
  trial_num <$> out = Some <$> seqZ 1 total ∧
  (∀ (i : nat) t, out !! i = Some t → trial_num t = Some (Z.of_nat i + 1)) ∧
  NoDup (trial_num <$> out) ∧
  (∀ k, Some k ∈ trial_num <$> out ↔ 1 ≤ k ≤ total).
Proof.
  intros (a & s1 & r & s3 & sh & Ha & Hr & Hsh & ->)%generate_inv.
  apply reconcile_inv in Hr.
  destruct (shuffle_ok (seed_state seed) r) as (? & ? & Hsh' & Hperm).
  rewrite Hsh in Hsh'. injection Hsh' as <- <-.
  assert (trial_num <$> number 1 sh = Some <$> seqZ 1 total) as Hnums.
  { by rewrite number_nums, Hperm, Hr. }
  split_and!; [done| | |].
  - intros i t Hi.
    assert ((trial_num <$> number 1 sh) !! i = Some (trial_num t)) as Hti
      by (by rewrite list_lookup_fmap, Hi).
    rewrite Hnums, list_lookup_fmap in Hti.
    destruct (seqZ 1 total !! i) as [k|] eqn:Hk; [|done].
    apply lookup_seqZ in Hk as [-> _]. injection Hti as <-.
    f_equal. lia.
  - rewrite Hnums. apply (NoDup_fmap_2 _), NoDup_seqZ.
  - intros k. rewrite Hnums, (list_elem_of_fmap_inj _), elem_of_seqZ. lia.
Qed.

(** C5. Under-shoot reconciliation: the loop returns the list it was
    given followed by [total_trials - len(trials)] appended records, one
    per iteration; every appended record has one of the two cue
    conditions, line condition ["congruent"] or ["incongruent"], and never
    ["center"]. *)
Theorem under_shoot_appends total s trials :
  (Z.of_nat (length trials) < total →
   ∃ s1 t, under_body s trials = Ok (s1, trials ++ [t]) ∧ appended t ∧
           under_loop total s trials = under_loop total s1 (trials ++ [t])) ∧
  ∃ s' added,
    under_loop total s trials = Ok (s', trials ++ added) ∧
    length added = Z.to_nat (total - Z.of_nat (length trials)) ∧
    Forall (λ t, cueCondition t ∈ cue_conditions ∧
                 lineCondition t ∈ ["congruent"; "incongruent"] ∧
                 lineCondition t ≠ "center") added.
Proof.
  split.
  - intros Hlt. destruct (under_body_ok s trials) as (s1 & t & Hb & Ht).
    exists s1, t. split_and!; [done..|].
    by rewrite (under_loop_eq total s trials), decide_True, Hb by done.
  - destruct (under_loop_ok total _ s trials eq_refl)
      as (s' & added & Hloop & Hlen & Hall).
    exists s', added. split_and!; [done..|].
    eapply Forall_impl; [exact Hall|]. intros t (Hcue & Hline & _).
    split_and!; [done..|]. intros Hc. rewrite Hc in Hline.
    rewrite !elem_of_cons, elem_of_nil in Hline. by destruct Hline as [|[|]].
Qed.

(** C8. Reproducible shuffle: when the allocated list already has
    [total_trials] records, two runs with the same [total_trials] and
    [seed] return the same list, whatever the generator states they start
    from; that list holds the allocated records in the order the seeded
    shuffle gives them. *)
Theorem reproducible_shuffle s0 s0' seed total a :
  allocate total = Ok a → Z.of_nat (length a) = total →
  generate s0 seed total = generate s0' seed total ∧
  ∃ s3 sh, shuffle (seed_state seed) a = Ok (s3, sh) ∧
           generate s0 seed total = Ok (number 1 sh).
Proof.
  intros Ha Hlen.
  assert (∀ s, reconcile total s a = Ok (s, a)) as Hrec.
  { intros s. unfold reconcile.
    rewrite under_loop_eq, decide_False by lia. simpl.
    by rewrite over_loop_stop by lia. }
  destruct (generate_steps s0 seed _ _ _ _ Ha (Hrec s0))
    as (s3 & sh & Hsh & _ & Hgen).
  split; [|by exists s3, sh].
  unfold generate. by rewrite Ha; simpl; rewrite !Hrec.
Qed.

(** C9. Frame property of the ordering and numbering phases: the shuffle
    returns a permutation of the reconciled list, numbering changes
    neither the length nor the cue and line condition of any record, so
    the final list has the length of the reconciled list and the same
    multiset of (cue condition, line condition) pairs. *)
Theorem shuffle_numbering_frame s0 seed total out :
  generate s0 seed total = Ok out →
  ∃ a s1 r s3 sh,
    allocate total = Ok a ∧ reconcile total s0 a = Ok (s1, r) ∧
    shuffle (seed_state seed) r = Ok (s3, sh) ∧ out = number 1 sh ∧
    sh ≡ₚ r ∧
    fields <$> out = fields <$> sh ∧
    length out = length r ∧
    fields <$> out ≡ₚ fields <$> r.
Proof.
  intros (a & s1 & r & s3 & sh & Ha & Hr & Hsh & ->)%generate_inv.
  destruct (shuffle_ok (seed_state seed) r) as (? & ? & Hsh' & Hperm).
  rewrite Hsh in Hsh'. injection Hsh' as <- <-.
  exists a, s1, r, s3, sh. split_and!; [done..| | |].
  - apply number_fields.
  - by rewrite number_length, Hperm.
  - by rewrite number_fields, Hperm.
Qed.

(** C10. The reconciliation phase terminates: for every nonnegative
    [total_trials] and every list, both loops end without an exception on
    a list of exactly [total_trials] records; an under-shoot iteration
    makes the list one record longer, and an over-shoot iteration deletes
    at an index inside the list and makes it one record shorter. *)
Theorem reconciliation_terminates total s trials :
  0 ≤ total →
  (∃ s' r, reconcile total s trials = Ok (s', r) ∧
           Z.of_nat (length r) = total) ∧
  (∀ s l, ∃ s1 l1, under_body s l = Ok (s1, l1) ∧
                   length l1 = S (length l)) ∧
  (∀ l, total < Z.of_nat (length l) →
        (first_center l < length l)%nat ∧
        ∃ l1, over_body l = Ok l1 ∧ S (length l1) = length l).
Proof.
  intros Htot. split_and!.
  - by apply reconcile_ok.
  - intros s1 l. destruct (under_body_ok s1 l) as (s2 & t & Hb & _).
    exists s2, (l ++ [t]). split; [done|]. rewrite length_app. simpl. lia.
  - intros l Hl.
    assert (l ≠ []) as Hne by (destruct l; [simpl in *; lia|done]).
    split; [by apply first_center_lt|].
    destruct (over_body_ok l Hne) as (l1 & Hb & Hlen & _). by exists l1.
Qed.

(** C4. Over-shoot reconciliation: while the list is longer than
    [total_trials] an iteration deletes the first record whose line
    condition is ["center"]; when no record has it, the record at index 0
    goes, whatever its line condition, as the ["congruent"] record of the
    last clause shows. *)
Theorem over_shoot_removes :
  (∀ total trials,
     total < Z.of_nat (length trials) →
     over_loop total trials = over_body trials ≫= over_loop total) ∧
  (∀ total trials,
     Z.of_nat (length trials) ≤ total → over_loop total trials = Ok trials) ∧
  (∀ l1 t l2,
     Forall (λ t, lineCondition t ≠ "center") l1 →
     lineCondition t = "center" →
     first_center (l1 ++ t :: l2) = length l1 ∧
     over_body (l1 ++ t :: l2) = Ok (l1 ++ l2)) ∧
  (∀ t trials,
     Forall (λ t, lineCondition t ≠ "center") (t :: trials) →
     first_center (t :: trials) = 0%nat ∧
     over_body (t :: trials) = Ok trials) ∧
  over_loop 0 [new_trial "cued" "congruent"] = Ok [].
Proof.
  split_and!.
  - intros total trials Hgt. by rewrite over_loop_eq, decide_True.
  - apply over_loop_stop.
  - intros l1 t l2 Hl1 Ht. split.
    + by apply first_center_here.
    + by apply over_body_center.
  - intros t trials Hall. split.
    + by apply first_center_none.
    + by apply over_body_fallback.
  - rewrite over_loop_eq, decide_True by (simpl; lia).
    rewrite over_body_fallback by (by repeat constructor). simpl.
    by rewrite over_loop_stop.
Qed.

Lemma count_app cue line l1 l2 :
  count cue line (l1 ++ l2) = (count cue line l1 + count cue line l2)%nat.
Proof. unfold count. by rewrite filter_app, length_app. Qed.

Lemma count_replicate cue line k t :
  count cue line (replicate k t) =
    if decide (fields t = (cue, line)) then k else 0%nat.
Proof.
  unfold count. induction k as [|k IH]; simpl.
  - by case_decide.
  - rewrite filter_cons. case_decide; simpl; by rewrite IH.
Qed.

Lemma category_block_eq k line :
  category_block k line =
    replicate (Z.to_nat k) (new_trial "cued" line)
      ++ replicate (Z.to_nat k) (new_trial "uncued" line).
Proof. unfold category_block, level_block. simpl. by rewrite app_nil_r. Qed.

Lemma category_block_length k line :
  0 ≤ k → Z.of_nat (length (category_block k line)) = 2 * k.
Proof.
  intros Hk. rewrite category_block_eq, length_app, !length_replicate. lia.
Qed.

Lemma appears_new cue line trials :
  new_trial cue line ∈ trials → appears cue line trials.
Proof.
  intros Hin. unfold appears.
  by apply (list_elem_of_fmap_2 fields) in Hin.
Qed.

Lemma appears_perm cue line l1 l2 :
  fields <$> l1 ≡ₚ fields <$> l2 → appears cue line l1 → appears cue line l2.
Proof. unfold appears. by intros ->. Qed.

(** C3. Allocation phase: for every category of [line_conditions], in
    iteration order, the phase appends [round(total * proportion) // 2]
    records of that category for ["cued"], then as many for ["uncued"];
    each (cue condition, line condition) pair so has that many records, a
    category has [n - n mod 2] of them for its share [n], the remainder
    being dropped. At 100 trials the shares are 33, 33 and 33, one short
    of 100, and 96 records are allocated, four short of 100. *)
Theorem allocation_phase :
  (∀ total, Z.abs total < 2 ^ 1023 →
     ∃ ns l,
       Forall2 (λ lp n, n_line total lp.2 = Ok n ∧ (0 ≤ total → 0 ≤ n))
               line_conditions ns ∧
       allocate total = Ok l ∧
       l = mjoin (zip_with
                    (λ lp n, cue_conditions ≫= λ cue,
                       replicate (Z.to_nat (n `div` 2)) (new_trial cue lp.1))
                    line_conditions ns) ∧
       (∀ (i : nat) line p n cue,
          line_conditions !! i = Some (line, p) → ns !! i = Some n →
          cue ∈ cue_conditions →
          count cue line l = Z.to_nat (n `div` 2)) ∧
       (0 ≤ total →
        Z.of_nat (length l) = foldr Z.add 0 ((λ n, n - n `mod` 2) <$> ns))) ∧
  (∃ l, n_line 100 third = Ok 33 ∧ allocate 100 = Ok l ∧
        100 - (33 + 33 + 33) = 1 ∧ 100 - Z.of_nat (length l) = 4).
Proof.
  split.
  - intros total Htot. destruct (n_line_ok total Htot) as [n Hn].
    assert (0 ≤ total → 0 ≤ n) as Hpos.
    { apply (n_line_sign total third n); [|exact Hn].
      rewrite third_eq. by vm_compute. }
    exists [n; n; n], (allocated (n `div` 2)). split_and!.
    + by repeat constructor.
    + by apply allocate_third.
    + unfold allocated. simpl. by rewrite !category_block_eq, !app_nil_r.
    + intros i line p k cue Hi Hk Hcue. unfold allocated.
      rewrite !category_block_eq, !count_app, !count_replicate.
      unfold cue_conditions in Hcue.
      rewrite !elem_of_cons, elem_of_nil in Hcue.
      unfold line_conditions in Hi. generalize dependent third. intros th _ Hi.
      destruct i as [|[|[|i]]]; [| | |done];
        injection Hi as <- _; injection Hk as <-;
        destruct Hcue as [->|[->|[]]]; repeat case_decide; (done || lia).
    + intros H0. specialize (Hpos H0).
      assert (0 ≤ n `div` 2) as Hk by (apply Z.div_pos; lia).
      unfold allocated. rewrite !length_app, !Nat2Z.inj_add.
      rewrite !category_block_length by done. simpl.
      pose proof (Z.div_mod n 2 ltac:(lia)). lia.
  - eexists. split_and!; [by vm_compute|by vm_compute|done|by vm_compute].
Qed.

(** *** Coverage *)

Lemma allocated_nil k : k ≤ 0 → allocated k = [].
Proof.
  intros Hk. unfold allocated. rewrite !category_block_eq.
  by replace (Z.to_nat k) with 0%nat by lia.
Qed.

Lemma allocated_length k : 0 ≤ k → Z.of_nat (length (allocated k)) = 6 * k.
Proof.
  intros Hk. unfold allocated. rewrite !length_app, !Nat2Z.inj_add.
  rewrite !category_block_length by done. lia.
Qed.

(** The allocated list around its first ["center"] record. *)
Lemma allocated_split k :
  1 ≤ k →
  ∃ l1 l2,
    allocated k = l1 ++ new_trial "cued" "center" :: l2 ∧
    Forall (λ t, lineCondition t ≠ "center") l1 ∧
    l1 = category_block k "congruent" ++ category_block k "incongruent" ∧
    l2 = replicate (Z.to_nat (k - 1)) (new_trial "cued" "center")
           ++ replicate (Z.to_nat k) (new_trial "uncued" "center").
Proof.
  intros Hk.
  exists (category_block k "congruent" ++ category_block k "incongruent"),
         (replicate (Z.to_nat (k - 1)) (new_trial "cued" "center")
            ++ replicate (Z.to_nat k) (new_trial "uncued" "center")).
  split_and!; [| |done..].
  - unfold allocated. rewrite <- app_assoc. do 2 f_equal.
    rewrite (category_block_eq k "center").
    by replace (Z.to_nat k) with (S (Z.to_nat (k - 1))) at 1 by lia.
  - rewrite !category_block_eq, !Forall_app.
    split_and!; by apply Forall_replicate.
Qed.

Lemma allocated_elem k cue line :
  1 ≤ k → cue ∈ cue_conditions → line ∈ line_conditions.*1 →
  new_trial cue line ∈ allocated k.
Proof.
  intros Hk Hcue Hline.
  change (line_conditions.*1) with ["congruent"; "incongruent"; "center"]
    in Hline.
  unfold cue_conditions in Hcue.
  rewrite !elem_of_cons, elem_of_nil in Hcue.
  rewrite !elem_of_cons, elem_of_nil in Hline.
  unfold allocated. rewrite !category_block_eq, !elem_of_app.
  rewrite !elem_of_replicate.
  destruct Hcue as [->|[->|[]]], Hline as [->|[->|[->|[]]]];
    naive_solver lia.
Qed.

(** Reconciling a list that gives every category [k] records per cue
    condition and is at most one record too long. *)
Lemma reconcile_allocated total s k :
  1 ≤ k → 6 * k ≤ total + 1 →
  ∃ s1 r,
    reconcile total s (allocated k) = Ok (s1, r) ∧
    (∀ cue line, new_trial cue line ∈ allocated k →
                 (cue, line) ≠ ("cued", "center") → new_trial cue line ∈ r) ∧
    (6 * k ≤ total ∨ 2 ≤ k → new_trial "cued" "center" ∈ r) ∧
    (total = 5 → ¬ appears "cued" "center" r).
Proof.
  intros Hk Hle.
  pose proof (allocated_length k ltac:(lia)) as Hlen.
  destruct (under_loop_ok total _ s (allocated k) eq_refl)
    as (s1 & added & Hu & Hadded & _).
  unfold reconcile. rewrite Hu. simpl.
  destruct (decide (6 * k ≤ total)) as [Hfit|Hover].
  - rewrite over_loop_stop by (rewrite length_app; lia). simpl.
    exists s1, (allocated k ++ added). split_and!; [done| | |lia].
    + intros cue line Hin _. apply elem_of_app. by left.
    + intros _. apply elem_of_app. left.
      apply allocated_elem; [done|..]; by repeat constructor.
  - assert (added = []) as -> by (apply nil_length_inv; lia).
    rewrite app_nil_r.
    destruct (allocated_split k Hk) as (l1 & l2 & Ha & Hl1 & El1 & El2).
    rewrite over_loop_eq, decide_True by lia.
    rewrite Ha, over_body_center by done. simpl.
    assert (Z.of_nat (length (l1 ++ l2)) = total) as Hlen2.
    { rewrite Ha, length_app in Hlen. simpl in Hlen.
      rewrite length_app. lia. }
    rewrite over_loop_stop by lia.
    exists s1, (l1 ++ l2). split_and!; [done| | |].
    + intros cue line Hin Hne. rewrite elem_of_app, elem_of_cons in Hin.
      rewrite elem_of_app. destruct Hin as [?|[Heq|?]]; [by left| |by right].
      injection Heq as -> ->. done.
    + intros [?|Hk2]; [lia|]. rewrite elem_of_app. right. subst l2.
      rewrite elem_of_app, elem_of_replicate. left. split; [done|lia].
    + intros ->. assert (k = 1) as -> by lia. subst l1 l2.
      unfold appears. vm_compute. intros Hin.
      repeat (apply elem_of_cons in Hin as [Hin|Hin]; [done|]).
      by apply elem_of_nil in Hin.
Qed.

(** C6, as the script behaves. Category coverage: when every category
    gets at least one record per cue condition in the allocation phase,
    the script builds a list in which every (cue condition, line
    condition) pair other than (["cued"], ["center"]) appears, and that
    pair appears too for every [total_trials] but 5: there the over-shoot
    loop deletes the only ["cued"] ["center"] record. *)
Theorem coverage_lower_bound s0 seed total :
  (∀ line p, (line, p) ∈ line_conditions →
             ∃ k, n_per_cue total p = Ok k ∧ 1 ≤ k) →
  ∃ out,
    generate s0 seed total = Ok out ∧
    (∀ cue line,
       cue ∈ cue_conditions → line ∈ line_conditions.*1 →
       (cue, line) ≠ ("cued", "center") → appears cue line out) ∧
    (appears "cued" "center" out ↔ total ≠ 5).
Proof.
  intros Hall.
  destruct (Hall "center" third) as (k & Hk & Hk1).
  { unfold line_conditions. by repeat constructor. }
  unfold n_per_cue in Hk.
  destruct (n_line total third) as [n|] eqn:Hn; [|done].
  injection Hk as <-. change (Z.of_nat (length cue_conditions)) with 2 in *.
  pose proof (Z.div_mod n 2 ltac:(lia)) as Hdm.
  pose proof (Z.mod_pos_bound n 2 ltac:(lia)) as Hmod.
  assert (0 < total) as Htot.
  { destruct (decide (0 < total)) as [|Hneg]; [done|].
    assert (0 ≤ Float.mant third) as Hm by (rewrite third_eq; by vm_compute).
    destruct (n_line_sign total third n Hm Hn) as [_ Hle].
    specialize (Hle ltac:(lia)). lia. }
  pose proof (n_line_upper total n Htot Hn) as Hup.
  pose proof (allocate_third total n Hn) as Ha.
  destruct (reconcile_allocated total s0 (n `div` 2))
    as (s1 & r & Hr & Hrest & Hcc & H5); [lia..|].
  destruct (generate_steps s0 seed _ _ _ _ Ha Hr)
    as (s3 & sh & _ & Hperm & Hgen).
  assert (fields <$> r ≡ₚ fields <$> number 1 sh) as Hf
    by (by rewrite number_fields, Hperm).
  exists (number 1 sh). split_and!; [done| |].
  - intros cue line Hcue Hline Hne.
    apply (appears_perm _ _ r); [done|].
    apply appears_new, Hrest; [|done]. by apply allocated_elem.
  - split.
    + intros Hin ->. apply H5; [done|].
      by apply (appears_perm _ _ (number 1 sh)).
    + intros Hne. apply (appears_perm _ _ r); [done|].
      apply appears_new, Hcc. lia.
Qed.

(** C7, as the script behaves. Nothing is validated before allocation:
    for a [total_trials] that is not positive the allocation phase runs to
    its end and leaves an empty list. With a negative [total_trials] the
    script fails afterwards, in the over-shoot loop, with the [IndexError]
    of [del trials[0]] on an empty list. With [total_trials = 0] the four
    phases, up to the numbering, go through on the empty list; the lines
    that follow the numbering are outside this statement. *)
Theorem nonpositive_total s0 seed total :
  - 2 ^ 1023 < total ≤ 0 →
  allocate total = Ok [] ∧
  (total = 0 → generate s0 seed total = Ok []) ∧
  (total < 0 →
   under_loop total s0 [] = Ok (s0, []) ∧
   over_loop total [] = Err IndexError ∧
   generate s0 seed total = Err IndexError).
Proof.
  intros Htot.
  destruct (n_line_ok total) as [n Hn]; [lia|].
  assert (0 ≤ Float.mant third) as Hm by (rewrite third_eq; by vm_compute).
  destruct (n_line_sign total third n Hm Hn) as [_ Hle].
  specialize (Hle ltac:(lia)).
  assert (n `div` 2 ≤ 0) as Hk.
  { pose proof (Z.div_mod n 2 ltac:(lia)).
    pose proof (Z.mod_pos_bound n 2 ltac:(lia)). lia. }
  pose proof (allocate_third total n Hn) as Ha.
  rewrite allocated_nil in Ha by done.
  assert (under_loop total s0 [] = Ok (s0, [])) as Hu.
  { rewrite under_loop_eq, decide_False; [done|simpl; lia]. }
  split_and!; [done| |].
  - intros ->. unfold generate, reconcile. rewrite Ha. simpl.
    rewrite Hu. simpl. by rewrite over_loop_stop.
  - intros Hneg.
    assert (over_loop total [] = Err IndexError) as Ho.
    { rewrite over_loop_eq, decide_True; [done|simpl; lia]. }
    split_and!; [done..|].
    unfold generate, reconcile. rewrite Ha. simpl. rewrite Hu. simpl.
    by rewrite Ho.
Qed.

(** *** The shares, in closed form *)

(** The rounded share is at most one third below a third of
    [total_trials], as long as [total_trials] stays under [2 ^ 42]. *)
Lemma n_line_lower total n :
  0 ≤ total < 2 ^ 42 → n_line total third = Ok n → total ≤ 3 * n + 1.
Proof.
  intros Htot. unfold n_line.
  destruct (Float.of_int total) as [x|] eqn:Hx; [|done].
  apply of_int_inv in Hx as ->. intros [= <-].
  destruct (round53_error (Float.mk total 0))
    as (k1 & Hk1 & He1 & Herr1 & Hpos1 & _).
  unfold Float.mul. rewrite third_eq.
  set (x := Float.round53 (Float.mk total 0)) in *.
  destruct (round53_error (Float.mk (Float.mant x * 6004799503160061)
                                    (Float.expo x + -54)))
    as (k2 & Hk2 & He2 & Herr2 & Hpos2 & _).
  cbn [Float.mant Float.expo] in *.
  set (y := Float.round53 (Float.mk (Float.mant x * _) _)) in *.
  specialize (Hpos1 ltac:(lia)). specialize (Hpos2 ltac:(lia)).
  set (m := 6004799503160061) in *. set (c := 2 ^ 53) in *.
  set (W := 2 ^ 54). set (T := 2 ^ 42) in *.
  assert (0 < m ∧ 1 < c ∧ 0 < W ∧ 0 < T ∧
          T * (2 * (W * (c * c)) - 6 * ((c - 1) * (c - 1) * m)) < W * (c * c))
    as (Hm & Hc & HW & HT & HK) by done.
  set (A := 2 ^ k1) in *. set (B := 2 ^ k2) in *.
  assert (0 < A) as HA by (apply Z.pow_pos_nonneg; lia).
  assert (0 < B) as HB by (apply Z.pow_pos_nonneg; lia).
  assert (A * B = 2 ^ (k1 + k2)) as HAB.
  { subst A B. by rewrite Z.pow_add_r by lia. }
  set (a1 := Float.mant x) in *. set (a2 := Float.mant y) in *.
  assert ((c - 1) * total ≤ c * (a1 * A)) as H1 by lia.
  assert ((c - 1) * (a1 * m) ≤ c * (a2 * B)) as H2 by lia.
  clear Herr1 Herr2.
  assert (2 * (a2 * (A * B)) - W ≤ 2 * Float.round y * W) as Hn.
  { unfold Float.round. rewrite He2, He1. fold a2. case_decide as He.
    - enough (a2 * 2 ^ (0 + k1 + -54 + k2) * W = a2 * (A * B)) by lia.
      subst W. rewrite HAB, <- Z.mul_assoc, <- Z.pow_add_r by lia.
      do 2 f_equal. lia.
    - set (D := 2 ^ (- (0 + k1 + -54 + k2))).
      assert (0 < D) as HD by (apply Z.pow_pos_nonneg; lia).
      assert (D * (A * B) = W) as <-.
      { subst D W. rewrite HAB, <- Z.pow_add_r by lia. f_equal. lia. }
      pose proof (rne_div_error a2 D HD) as [Hn _].
      assert (0 < A * B) by lia. nia. }
  clear HAB. clearbody m c W T A B a1 a2.
  set (n := Float.round y) in *. clearbody n. clear He1 He2 x y.
  assert (c * A * ((c - 1) * (a1 * m)) ≤ c * A * (c * (a2 * B))) as E1
    by (apply Z.mul_le_mono_nonneg_l; lia).
  assert ((c - 1) * m * ((c - 1) * total) ≤ (c - 1) * m * (c * (a1 * A)))
    as E2 by (apply Z.mul_le_mono_nonneg_l; [nia|lia]).
  assert ((c - 1) * (c - 1) * m * total ≤ c * c * (a2 * (A * B))) as H3
    by lia.
  clear E1 E2 H1 H2.
  set (V := a2 * (A * B)) in *. clearbody V.
  set (K1 := (c - 1) * (c - 1) * m) in *. set (K2 := c * c) in *.
  assert (0 < K2) by (subst K2; nia). clearbody K1 K2.
  set (K3 := 2 * (W * K2) - 6 * K1) in *.
  assert (total * K3 < W * K2) as H4.
  { destruct (decide (0 ≤ K3)); nia. }
  assert (2 * (K2 * V) - K2 * W ≤ K2 * (2 * n * W)) as H5 by nia.
  assert (W * K2 * (2 * total - 4) < W * K2 * (6 * n)) as H6 by lia.
  apply Z.mul_lt_mono_pos_l in H6; lia.
Qed.

(** Below [2 ^ 42] the literal [0.3333333333333] acts as one third:
    [round(total_trials * proportion)] is the integer nearest to
    [total_trials / 3], and every pair gets [(total_trials + 1) // 6]
    records in the allocation phase. *)
Lemma n_line_third total :
  0 ≤ total < 2 ^ 42 → n_line total third = Ok ((total + 1) `div` 3).
Proof.
  intros Htot. destruct (n_line_ok total) as [n Hn]; [lia|].
  rewrite Hn. f_equal.
  pose proof (n_line_lower total n Htot Hn) as Hlo.
  assert (3 * n ≤ total + 1) as Hup.
  { destruct (decide (total = 0)) as [->|]; [|apply n_line_upper; [lia|done]].
    by injection Hn as <-. }
  apply Z.div_unique with (r := total + 1 - 3 * n); lia.
Qed.

Lemma n_per_cue_third total :
  0 ≤ total < 2 ^ 42 → n_per_cue total third = Ok ((total + 1) `div` 6).
Proof.
  intros Htot. unfold n_per_cue. rewrite n_line_third by done.
  change (Z.of_nat (length cue_conditions)) with 2. simpl. f_equal.
  rewrite Z.div_div by lia. done.
Qed.

Lemma allocate_closed total :
  0 ≤ total < 2 ^ 42 → allocate total = Ok (allocated ((total + 1) `div` 6)).
Proof.
  intros Htot. rewrite (allocate_third total _ (n_line_third total Htot)).
  by rewrite Z.div_div by lia.
Qed.

(** *** What reconciliation does to the allocated list *)

Lemma count_fields cue line trials :
  count cue line trials
  = length (filter (λ p, p = (cue, line)) (fields <$> trials)).
Proof.
  unfold count. induction trials as [|t trials IH]; [done|].
  rewrite fmap_cons, !filter_cons. repeat case_decide; simpl; by rewrite IH.
Qed.

Lemma count_perm cue line l1 l2 :
  fields <$> l1 ≡ₚ fields <$> l2 → count cue line l1 = count cue line l2.
Proof. intros Hperm. by rewrite !count_fields, Hperm. Qed.

Lemma count_le_length cue line trials :
  (count cue line trials ≤ length trials)%nat.
Proof. unfold count. apply length_filter. Qed.

Lemma count_appended_center cue added :
  Forall appended added → count cue "center" added = 0%nat.
Proof.
  unfold count. induction 1 as [|t added (_ & Hline & _) _ IH]; [done|].
  rewrite filter_cons, decide_False; [done|].
  intros [= _ Hc]. rewrite Hc in Hline.
  rewrite !elem_of_cons, elem_of_nil in Hline. by destruct Hline as [|[|]].
Qed.

Lemma count_allocated k cue line :
  cue ∈ cue_conditions → line ∈ line_conditions.*1 →
  count cue line (allocated k) = Z.to_nat k.
Proof.
  intros Hcue Hline.
  change (line_conditions.*1) with ["congruent"; "incongruent"; "center"]
    in Hline.
  unfold cue_conditions in Hcue.
  rewrite !elem_of_cons, elem_of_nil in Hcue.
  rewrite !elem_of_cons, elem_of_nil in Hline.
  unfold allocated.
  rewrite !category_block_eq, !count_app, !count_replicate.
  destruct Hcue as [->|[->|[]]], Hline as [->|[->|[->|[]]]];
    repeat case_decide; (done || lia).
Qed.

(** Either records are appended, or the list loses its first ["center"]
    record, which is a ["cued"] one, and nothing else. *)
Lemma reconcile_shape total s k :
  0 ≤ total → 6 * k ≤ total + 1 →
  ∃ s1 r,
    reconcile total s (allocated k) = Ok (s1, r) ∧
    ((6 * Z.max k 0 ≤ total ∧
      ∃ added, r = allocated k ++ added ∧ Forall appended added ∧
               Z.of_nat (length added) = total - 6 * Z.max k 0) ∨
     (6 * k = total + 1 ∧ s1 = s ∧
      ∃ l1 l2, allocated k = l1 ++ new_trial "cued" "center" :: l2 ∧
               Forall (λ t, lineCondition t ≠ "center") l1 ∧
               r = l1 ++ l2)).
Proof.
  intros Htot Hle.
  assert (Z.of_nat (length (allocated k)) = 6 * Z.max k 0) as Hlen.
  { destruct (decide (0 ≤ k)).
    - rewrite allocated_length by done. lia.
    - rewrite allocated_nil by lia. simpl. lia. }
  unfold reconcile.
  destruct (decide (6 * Z.max k 0 ≤ total)) as [Hfit|Hover].
  - destruct (under_loop_ok total _ s (allocated k) eq_refl)
      as (s1 & added & -> & Hadded & Hall).
    simpl. rewrite over_loop_stop by (rewrite length_app; lia). simpl.
    exists s1, (allocated k ++ added). split; [done|]. left.
    split; [done|]. exists added. split_and!; [done..|lia].
  - rewrite under_loop_eq, decide_False by lia. simpl.
    destruct (allocated_split k) as (l1 & l2 & Ha & Hl1 & _); [lia|].
    rewrite over_loop_eq, decide_True by lia.
    rewrite Ha, over_body_center by done. simpl.
    rewrite Ha, length_app in Hlen. simpl in Hlen.
    rewrite over_loop_stop by (rewrite length_app; lia).
    exists s, (l1 ++ l2). split; [done|]. right.
    split_and!; [lia|done|]. by exists l1, l2.
Qed.

Lemma generate_fields s0 seed total a s1 r :
  allocate total = Ok a → reconcile total s0 a = Ok (s1, r) →
  ∃ out, generate s0 seed total = Ok out ∧
         fields <$> out ≡ₚ fields <$> r ∧
         trial_num <$> out = Some <$> seqZ 1 (Z.of_nat (length r)).
Proof.
  intros Ha Hr.
  destruct (generate_steps s0 seed _ _ _ _ Ha Hr)
    as (s3 & sh & _ & Hperm & Hgen).
  exists (number 1 sh). split_and!; [done| |].
  - by rewrite number_fields, Hperm.
  - by rewrite number_nums, Hperm.
Qed.

Lemma count_middle cue line l1 t l2 :
  count cue line (l1 ++ t :: l2)
  = ((if decide (fields t = (cue, line)) then 1 else 0)
     + count cue line (l1 ++ l2))%nat.
Proof.
  rewrite !count_app. unfold count at 2. rewrite filter_cons.
  case_decide; simpl; unfold count; lia.
Qed.

Lemma appears_count cue line trials :
  appears cue line trials ↔ (0 < count cue line trials)%nat.
Proof.
  unfold appears. rewrite count_fields.
  induction (fields <$> trials) as [|p ps IH].
  - rewrite elem_of_nil. simpl. lia.
  - rewrite elem_of_cons, filter_cons, IH.
    case_decide; simpl.
    + split; [lia|]. by left.
    + split; [by intros [?|?]|by right].
Qed.

(** How many records of each pair the final list has, below [2 ^ 42]. *)
Lemma final_counts s0 seed total :
  0 ≤ total < 2 ^ 42 →
  ∃ out,
    generate s0 seed total = Ok out ∧
    count "cued" "center" out = Z.to_nat (total `div` 6) ∧
    count "uncued" "center" out = Z.to_nat ((total + 1) `div` 6) ∧
    ∀ cue line,
      cue ∈ cue_conditions → line ∈ ["congruent"; "incongruent"] →
      (total + 1) `div` 6 ≤ Z.of_nat (count cue line out)
      ≤ (total + 1) `div` 6 + Z.max 0 (total - 6 * ((total + 1) `div` 6)).
Proof.
  intros Htot. set (k := (total + 1) `div` 6).
  pose proof (Z.div_mod (total + 1) 6 ltac:(lia)) as Hdm.
  pose proof (Z.mod_pos_bound (total + 1) 6 ltac:(lia)) as Hmod.
  fold k in Hdm.
  assert (0 ≤ k) as Hk by (apply Z.div_pos; lia).
  pose proof (allocate_closed total Htot) as Ha. fold k in Ha.
  destruct (reconcile_shape total s0 k) as (s1 & r & Hr & Hshape); [lia..|].
  destruct (generate_fields s0 seed _ _ _ _ Ha Hr) as (out & Hgen & Hf & _).
  exists out. split; [done|].
  assert (∀ cue line, count cue line out = count cue line r) as Hcount.
  { intros. by apply count_perm. }
  rewrite !Hcount.
  assert (∀ cue line, cue ∈ cue_conditions → line ∈ line_conditions.*1 →
                      count cue line (allocated k) = Z.to_nat k) as Hk6.
  { intros. by apply count_allocated. }
  assert (∀ cue line,
            cue ∈ cue_conditions → line ∈ ["congruent"; "incongruent"] →
            cue ∈ cue_conditions ∧ line ∈ line_conditions.*1 ∧
            (cue, line) ≠ ("cued", "center")) as Hvoc.
  { intros cue line Hcue Hline. split_and!; [done| |].
    - change (line_conditions.*1) with ["congruent"; "incongruent"; "center"].
      rewrite !elem_of_cons in Hline |- *.
      destruct Hline as [->|[->|Hline]]; [by left|by right; left|].
      by apply elem_of_nil in Hline.
    - intros [= _ ->]. rewrite !elem_of_cons, elem_of_nil in Hline.
      by destruct Hline as [|[|]]. }
  assert ("cued" ∈ cue_conditions ∧ "uncued" ∈ cue_conditions ∧
          "center" ∈ line_conditions.*1) as (Hc1 & Hc2 & Hc3)
    by (split_and!; by repeat constructor).
  destruct Hshape as [(Hfit & added & -> & Hall & Hlen)
                     |(Hover & _ & l1 & l2 & Hsplit & _ & ->)].
  - assert (total `div` 6 = k) as ->.
    { symmetry. apply Z.div_unique with (r := total - 6 * k); lia. }
    rewrite !count_app, !(count_appended_center _ added), !Hk6 by done.
    split_and!; [lia..|]. intros cue line Hcue Hline.
    destruct (Hvoc cue line Hcue Hline) as (_ & Hl & _).
    rewrite Hcount, count_app, Hk6 by done.
    pose proof (count_le_length cue line added). lia.
  - assert (total `div` 6 = k - 1) as ->.
    { symmetry. apply Z.div_unique with (r := 5); lia. }
    pose proof (Hk6 "cued" "center" Hc1 Hc3) as H1.
    pose proof (Hk6 "uncued" "center" Hc2 Hc3) as H2.
    rewrite Hsplit, count_middle in H1, H2.
    rewrite decide_True in H1 by done. rewrite decide_False in H2 by done.
    split_and!; [lia..|]. intros cue line Hcue Hline.
    destruct (Hvoc cue line Hcue Hline) as (_ & Hl & Hne).
    pose proof (Hk6 cue line Hcue Hl) as H3.
    rewrite Hsplit, count_middle, decide_False in H3
      by (intros [= <- <-]; by apply Hne).
    rewrite Hcount. lia.
Qed.

Lemma allocate_inv total a :
  allocate total = Ok a →
  ∃ n, n_line total third = Ok n ∧ a = allocated (n `div` 2).
Proof.
  destruct (n_line total third) as [n|e] eqn:Hn.
  - rewrite (allocate_third _ _ Hn). intros [= <-]. by exists n.
  - unfold allocate, line_conditions. rewrite for_lines_cons.
    unfold n_per_cue. by rewrite Hn.
Qed.

Lemma allocated_well_formed k : Forall well_formed (allocated k).
Proof.
  unfold allocated. rewrite !category_block_eq, !Forall_app.
  split_and!; apply Forall_replicate; split; by repeat constructor.
Qed.

Lemma appended_well_formed t : appended t → well_formed t.
Proof.
  intros (Hcue & Hline & _). split; [done|].
  change (line_conditions.*1) with ["congruent"; "incongruent"; "center"].
  rewrite !elem_of_cons in Hline |- *.
  destruct Hline as [->|[->|Hline]]; [by left|by right; left|].
  by apply elem_of_nil in Hline.
Qed.

Lemma reconcile_well_formed total s trials s1 r :
  reconcile total s trials = Ok (s1, r) →
  Forall well_formed trials → Forall well_formed r.
Proof.
  unfold reconcile.
  destruct (under_loop_ok total _ s trials eq_refl)
    as (s2 & added & -> & _ & Hadded). simpl.
  destruct (over_loop total _) as [r'|] eqn:Hover; [|done].
  intros [= _ <-] Hwf.
  apply (over_loop_inv _ _ _ _ eq_refl) in Hover as [_ Hsub].
  rewrite Forall_forall. intros t Ht.
  apply (elem_of_submseteq _ _ _ Ht) in Hsub.
  apply elem_of_app in Hsub as [Hin|Hin].
  - by apply (proj1 (Forall_forall _ _) Hwf).
  - by apply appended_well_formed, (proj1 (Forall_forall _ _) Hadded).
Qed.

Lemma count_sum trials :
  Forall well_formed trials →
  (count "cued" "congruent" trials + count "uncued" "congruent" trials
   + count "cued" "incongruent" trials + count "uncued" "incongruent" trials
   + count "cued" "center" trials + count "uncued" "center" trials
   = length trials)%nat.
Proof.
  unfold count. induction 1 as [|t trials [Hcue Hline] _ IH]; [done|].
  destruct t as [cue line num]. unfold fields in *. simpl in Hcue, Hline.
  change (line_conditions.*1) with ["congruent"; "incongruent"; "center"]
    in Hline.
  unfold cue_conditions in Hcue.
  rewrite !elem_of_cons, elem_of_nil in Hcue.
  rewrite !elem_of_cons, elem_of_nil in Hline.
  rewrite !filter_cons. cbn [cueCondition lineCondition].
  destruct Hcue as [->|[->|[]]], Hline as [->|[->|[->|[]]]];
    repeat case_decide; simplify_eq; simpl; lia.
Qed.

(** ** Further properties of the generator *)

(** X1. Below [2 ^ 42] trials the literal [0.3333333333333] acts as one
    third: [round(total_trials * proportion)] is [(total_trials + 1) // 3],
    the integer nearest to [total_trials / 3], and [n_per_cue] is
    [(total_trials + 1) // 6]. Far above the bound this fails: at
    [3 * 10 ^ 13] the share is one less than a third. *)
Theorem third_acts_as_one_third total :
  0 ≤ total < 2 ^ 42 →
  n_line total third = Ok ((total + 1) `div` 3) ∧
  -1 ≤ total - 3 * ((total + 1) `div` 3) ≤ 1 ∧
  n_per_cue total third = Ok ((total + 1) `div` 6) ∧
  n_line (3 * 10 ^ 13) third = Ok (10 ^ 13 - 1).
Proof.
  intros Htot. split; [|split; [|split]].
  - by apply n_line_third.
  - pose proof (Z.div_mod (total + 1) 3 ltac:(lia)).
    pose proof (Z.mod_pos_bound (total + 1) 3 ltac:(lia)). lia.
  - by apply n_per_cue_third.
  - by vm_compute.
Qed.

(** X2. Below [2 ^ 42] trials reconciliation is small: the allocated list
    has [6 * ((total_trials + 1) // 6)] records; unless [total_trials] is 5
    modulo 6 the under-shoot loop appends [total_trials mod 6] records, at
    most four, and nothing is deleted; otherwise nothing is appended, no
    random number is drawn, and exactly one record is deleted. *)
Theorem reconciliation_is_small s total :
  0 ≤ total < 2 ^ 42 →
  ∃ a s1 r,
    allocate total = Ok a ∧
    Z.of_nat (length a) = 6 * ((total + 1) `div` 6) ∧
    reconcile total s a = Ok (s1, r) ∧
    ((total `mod` 6 ≠ 5 ∧
      ∃ added, r = a ++ added ∧ Forall appended added ∧
               Z.of_nat (length added) = total `mod` 6) ∨
     (total `mod` 6 = 5 ∧ s1 = s ∧
      ∃ l1 t l2, a = l1 ++ t :: l2 ∧ r = l1 ++ l2)).
Proof.
  intros Htot. set (k := (total + 1) `div` 6).
  pose proof (Z.div_mod (total + 1) 6 ltac:(lia)) as Hdm.
  pose proof (Z.mod_pos_bound (total + 1) 6 ltac:(lia)) as Hmod.
  pose proof (Z.div_mod total 6 ltac:(lia)) as Hdm'.
  pose proof (Z.mod_pos_bound total 6 ltac:(lia)) as Hmod'.
  fold k in Hdm.
  assert (0 ≤ k) as Hk by (apply Z.div_pos; lia).
  pose proof (allocate_closed total Htot) as Ha. fold k in Ha.
  destruct (reconcile_shape total s k) as (s1 & r & Hr & Hshape); [lia..|].
  exists (allocated k), s1, r.
  split_and!; [done|by apply allocated_length|done|].
  destruct Hshape as [(Hfit & added & -> & Hall & Hlen)
                     |(Hover & -> & l1 & l2 & Hsplit & _ & ->)].
  - left. split; [lia|]. exists added. split_and!; [done..|lia].
  - right. split_and!; [lia|done|].
    by exists l1, (new_trial "cued" "center"), l2.
Qed.

(** X3. For every nonnegative [total_trials] below [2 ^ 1023], the
    over-shoot loop never reaches its index-0 fallback: the reconciled
    list is either the allocated list followed by appended records, or the
    allocated list, one record too long, without its first ["center"]
    record, which is a ["cued"] one. No record of another line condition is
    ever deleted. *)
Theorem over_shoot_fallback_unused s total :
  0 ≤ total < 2 ^ 1023 →
  ∃ a s1 r,
    allocate total = Ok a ∧ reconcile total s a = Ok (s1, r) ∧
    ((∃ added, r = a ++ added ∧ Forall appended added) ∨
     (Z.of_nat (length a) = total + 1 ∧
      ∃ l1 l2, a = l1 ++ new_trial "cued" "center" :: l2 ∧
               Forall (λ t, lineCondition t ≠ "center") l1 ∧
               first_center a = length l1 ∧
               r = l1 ++ l2)) ∧
    (∀ t, t ∈ a → lineCondition t ≠ "center" → t ∈ r).
Proof.
  intros Htot. destruct (n_line_ok total) as [n Hn]; [lia|].
  assert (0 ≤ Float.mant third) as Hm by (rewrite third_eq; by vm_compute).
  destruct (n_line_sign total third n Hm Hn) as [Hpos Hneg].
  assert (3 * n ≤ total + 1) as Hup.
  { destruct (decide (total = 0)) as [->|]; [|apply n_line_upper; [lia|done]].
    specialize (Hneg ltac:(lia)). lia. }
  pose proof (Z.div_mod n 2 ltac:(lia)) as Hdm.
  pose proof (Z.mod_pos_bound n 2 ltac:(lia)) as Hmod.
  pose proof (allocate_third total n Hn) as Ha.
  destruct (reconcile_shape total s (n `div` 2))
    as (s1 & r & Hr & Hshape); [lia..|].
  exists (allocated (n `div` 2)), s1, r. split_and!; [done..| |].
  - destruct Hshape as [(_ & added & -> & Hall & _)
                       |(Hover & _ & l1 & l2 & Hsplit & Hl1 & ->)].
    + left. by exists added.
    + right. split.
      * rewrite allocated_length by lia. lia.
      * exists l1, l2. split_and!; [done..| |done].
        rewrite Hsplit. by apply first_center_here.
  - intros t Hin Hline.
    destruct Hshape as [(_ & added & -> & _)
                       |(_ & _ & l1 & l2 & Hsplit & _ & ->)].
    + apply elem_of_app. by left.
    + rewrite Hsplit, elem_of_app, elem_of_cons in Hin.
      rewrite elem_of_app. destruct Hin as [?|[->|?]]; [by left|done|by right].
Qed.

(** X4. When [total_trials] is a multiple of 6 below [2 ^ 42], as the 150
    of the script is, every one of the six pairs has exactly
    [total_trials / 6] records in the final list, for every generator
    state and seed. *)
Theorem balanced_multiples_of_six s0 seed total :
  0 ≤ total < 2 ^ 42 → total `mod` 6 = 0 →
  ∃ out,
    generate s0 seed total = Ok out ∧
    ∀ cue line,
      cue ∈ cue_conditions → line ∈ line_conditions.*1 →
      Z.of_nat (count cue line out) = total `div` 6.
Proof.
  intros Htot Hmod.
  destruct (final_counts s0 seed total Htot)
    as (out & Hgen & Hcc & Huc & Hrest).
  exists out. split; [done|]. intros cue line Hcue Hline.
  pose proof (Z.div_mod total 6 ltac:(lia)) as Hdm.
  assert (0 ≤ total `div` 6) as Hk by (apply Z.div_pos; lia).
  assert ((total + 1) `div` 6 = total `div` 6) as Heq.
  { symmetry. apply Z.div_unique with (r := 1); lia. }
  rewrite Heq in *.
  change (line_conditions.*1) with ["congruent"; "incongruent"; "center"]
    in Hline.
  rewrite !elem_of_cons, elem_of_nil in Hline.
  destruct Hline as [->|[->|[->|[]]]].
  - specialize (Hrest cue "congruent" Hcue ltac:(by repeat constructor)). lia.
  - specialize (Hrest cue "incongruent" Hcue ltac:(by repeat constructor)).
    lia.
  - unfold cue_conditions in Hcue.
    rewrite !elem_of_cons, elem_of_nil in Hcue.
    destruct Hcue as [->|[->|[]]]; lia.
Qed.

(** X5. The number of ["center"] records never depends on chance: below
    [2 ^ 42] trials the final list has [total_trials // 6] ["cued"] and
    [(total_trials + 1) // 6] ["uncued"] center records, for every
    generator state and seed. *)
Theorem center_counts s0 seed total :
  0 ≤ total < 2 ^ 42 →
  ∃ out,
    generate s0 seed total = Ok out ∧
    Z.of_nat (count "cued" "center" out) = total `div` 6 ∧
    Z.of_nat (count "uncued" "center" out) = (total + 1) `div` 6.
Proof.
  intros Htot.
  destruct (final_counts s0 seed total Htot) as (out & Hgen & Hcc & Huc & _).
  exists out. split; [done|].
  assert (0 ≤ total `div` 6) by (apply Z.div_pos; lia).
  assert (0 ≤ (total + 1) `div` 6) by (apply Z.div_pos; lia).
  lia.
Qed.

(** X6. Balance of the cue conditions within a line condition: below
    [2 ^ 42] trials the numbers of ["cued"] and ["uncued"] records of one
    line condition differ by at most 4 in the final list, and by at most 1
    for ["center"]. *)
Theorem cue_balance s0 seed total :
  0 ≤ total < 2 ^ 42 →
  ∃ out,
    generate s0 seed total = Ok out ∧
    (∀ line, line ∈ line_conditions.*1 →
             Z.abs (Z.of_nat (count "cued" line out)
                    - Z.of_nat (count "uncued" line out)) ≤ 4) ∧
    Z.abs (Z.of_nat (count "cued" "center" out)
           - Z.of_nat (count "uncued" "center" out)) ≤ 1.
Proof.
  intros Htot.
  destruct (final_counts s0 seed total Htot)
    as (out & Hgen & Hcc & Huc & Hrest).
  exists out. split; [done|].
  pose proof (Z.div_mod (total + 1) 6 ltac:(lia)) as Hdm.
  pose proof (Z.mod_pos_bound (total + 1) 6 ltac:(lia)) as Hmod.
  pose proof (Z.div_mod total 6 ltac:(lia)) as Hdm'.
  pose proof (Z.mod_pos_bound total 6 ltac:(lia)) as Hmod'.
  assert (0 ≤ total `div` 6) by (apply Z.div_pos; lia).
  assert (0 ≤ (total + 1) `div` 6) by (apply Z.div_pos; lia).
  assert (Z.abs (Z.of_nat (count "cued" "center" out)
                 - Z.of_nat (count "uncued" "center" out)) ≤ 1) as Hcenter
    by lia.
  split; [|done]. intros line Hline.
  change (line_conditions.*1) with ["congruent"; "incongruent"; "center"]
    in Hline.
  rewrite !elem_of_cons, elem_of_nil in Hline.
  assert ("cued" ∈ cue_conditions ∧ "uncued" ∈ cue_conditions) as [Hc Hu]
    by (split; by repeat constructor).
  destruct Hline as [->|[->|[->|[]]]]; [| |lia].
  - pose proof (Hrest "cued" "congruent" Hc ltac:(by repeat constructor)).
    pose proof (Hrest "uncued" "congruent" Hu ltac:(by repeat constructor)).
    lia.
  - pose proof (Hrest "cued" "incongruent" Hc ltac:(by repeat constructor)).
    pose proof (Hrest "uncued" "incongruent" Hu ltac:(by repeat constructor)).
    lia.
Qed.

Lemma number_well_formed i trials :
  Forall well_formed trials →
  Forall (λ t, well_formed t ∧ is_Some (trial_num t)) (number i trials).
Proof.
  intros Hwf. revert i. induction Hwf as [|t trials Ht _ IH]; intros i.
  - constructor.
  - simpl. constructor; [|apply IH]. split; [exact Ht|by eexists].
Qed.

Lemma generate_well_formed s0 seed total out :
  generate s0 seed total = Ok out →
  Forall (λ t, well_formed t ∧ is_Some (trial_num t)) out ∧
  Z.of_nat (length out) = total.
Proof.
  intros (a & s1 & r & s3 & sh & Ha & Hr & Hsh & ->)%generate_inv.
  destruct (shuffle_ok (seed_state seed) r) as (? & ? & Hsh' & Hperm).
  rewrite Hsh in Hsh'. injection Hsh' as <- <-.
  apply allocate_inv in Ha as (n & _ & ->).
  pose proof (reconcile_well_formed _ _ _ _ _ Hr (allocated_well_formed _))
    as Hwf.
  apply reconcile_inv in Hr. split.
  - apply number_well_formed. by rewrite Hperm.
  - by rewrite number_length, Hperm.
Qed.

(** X7. Every record of a list the script returns has one of the two cue
    conditions, one of the three line conditions and a sequence number, so
    the summary the script prints has at most six groups, and their six
    sizes add up to [total_trials]. *)
Theorem output_vocabulary s0 seed total out :
  generate s0 seed total = Ok out →
  Forall (λ t, cueCondition t ∈ cue_conditions ∧
               lineCondition t ∈ line_conditions.*1 ∧
               is_Some (trial_num t)) out ∧
  Z.of_nat (count "cued" "congruent" out + count "uncued" "congruent" out
            + count "cued" "incongruent" out + count "uncued" "incongruent" out
            + count "cued" "center" out + count "uncued" "center" out)
  = total.
Proof.
  intros [Hwf Hlen]%generate_well_formed. split.
  - eapply Forall_impl; [exact Hwf|]. by intros t [[? ?] ?].
  - rewrite count_sum; [done|].
    eapply Forall_impl; [exact Hwf|]. by intros t [? _].
Qed.

(** X8. The seed only reorders: with the same generator state at start-up,
    two seeds give lists with the same multiset of (cue condition, line
    condition) pairs and the same column of sequence numbers. *)
Theorem seed_only_reorders s0 seed seed' total out :
  generate s0 seed total = Ok out →
  ∃ out',
    generate s0 seed' total = Ok out' ∧
    fields <$> out ≡ₚ fields <$> out' ∧
    trial_num <$> out = trial_num <$> out'.
Proof.
  intros Hgen.
  destruct (generate_inv _ _ _ _ Hgen) as (a & s1 & r & _ & _ & Ha & Hr & _).
  destruct (generate_fields s0 seed _ _ _ _ Ha Hr) as (o & Ho & Hf & Hn).
  rewrite Hgen in Ho. injection Ho as <-.
  destruct (generate_fields s0 seed' _ _ _ _ Ha Hr) as (out' & Ho' & Hf' & Hn').
  exists out'. split_and!; [done| |].
  - by rewrite Hf, Hf'.
  - by rewrite Hn, Hn'.
Qed.

(** X9. Coverage, exactly: below [2 ^ 42] trials the final list has all
    six (cue condition, line condition) pairs if and only if
    [total_trials] is at least 6, and it has a ["center"] record at all if
    and only if [total_trials] is at least 5. *)
Theorem coverage_iff s0 seed total :
  0 ≤ total < 2 ^ 42 →
  ∃ out,
    generate s0 seed total = Ok out ∧
    ((∀ cue line, cue ∈ cue_conditions → line ∈ line_conditions.*1 →
                  appears cue line out) ↔ 6 ≤ total) ∧
    ((∃ t, t ∈ out ∧ lineCondition t = "center") ↔ 5 ≤ total).
Proof.
  intros Htot.
  destruct (final_counts s0 seed total Htot)
    as (out & Hgen & Hcc & Huc & Hrest).
  exists out. split; [done|].
  pose proof (Z.div_mod (total + 1) 6 ltac:(lia)) as Hdm.
  pose proof (Z.mod_pos_bound (total + 1) 6 ltac:(lia)) as Hmod.
  pose proof (Z.div_mod total 6 ltac:(lia)) as Hdm'.
  pose proof (Z.mod_pos_bound total 6 ltac:(lia)) as Hmod'.
  assert (0 ≤ total `div` 6) by (apply Z.div_pos; lia).
  assert (0 ≤ (total + 1) `div` 6) by (apply Z.div_pos; lia).
  assert ("cued" ∈ cue_conditions ∧ "uncued" ∈ cue_conditions ∧
          "center" ∈ line_conditions.*1) as (Hc & Hu & Hz)
    by (split_and!; by repeat constructor).
  split; split.
  - intros Hall. specialize (Hall "cued" "center" Hc Hz).
    apply appears_count in Hall. lia.
  - intros H6 cue line Hcue Hline. apply appears_count.
    change (line_conditions.*1) with ["congruent"; "incongruent"; "center"]
      in Hline.
    rewrite !elem_of_cons, elem_of_nil in Hline.
    destruct Hline as [->|[->|[->|[]]]].
    + specialize (Hrest cue "congruent" Hcue ltac:(by repeat constructor)).
      lia.
    + specialize (Hrest cue "incongruent" Hcue ltac:(by repeat constructor)).
      lia.
    + unfold cue_conditions in Hcue.
      rewrite !elem_of_cons, elem_of_nil in Hcue.
      destruct Hcue as [->|[->|[]]]; lia.
  - intros (t & Hin & Hline).
    destruct (generate_well_formed _ _ _ _ Hgen) as [Hwf _].
    rewrite Forall_forall in Hwf. destruct (Hwf t Hin) as [[Hcue _] _].
    assert (appears (cueCondition t) "center" out) as Happ.
    { unfold appears. rewrite <- Hline. by apply (list_elem_of_fmap_2 fields). }
    apply appears_count in Happ. unfold cue_conditions in Hcue.
    rewrite !elem_of_cons, elem_of_nil in Hcue.
    destruct Hcue as [Hcue|[Hcue|[]]]; rewrite Hcue in Happ; lia.
  - intros H5.
    assert (appears "uncued" "center" out) as Happ
      by (apply appears_count; lia).
    unfold appears in Happ. apply list_elem_of_fmap in Happ as (t & Ht & Hin).
    exists t. split; [done|]. by injection Ht as _ <-.
Qed.

(** X10. Reconciliation is idempotent: a reconciled list has exactly
    [total_trials] records, so reconciling it again returns it unchanged and
    draws no random number. *)
Theorem reconcile_idempotent total s trials s1 r s' :
  reconcile total s trials = Ok (s1, r) →
  reconcile total s' r = Ok (s', r).
Proof.
  intros Hlen%reconcile_inv. unfold reconcile.
  rewrite under_loop_eq, decide_False by lia. simpl.
  by rewrite over_loop_stop by lia.
Qed.

(** *** The range of [float(total_trials)] *)

Lemma of_int_overflow_iff n :
  Float.of_int n = Err OverflowError ↔ 2 ^ 1024 - 2 ^ 970 ≤ Z.abs n.
Proof.
  destruct (decide (Z.abs n < 2 ^ 1023)) as [Hsmall|Hbig].
  { rewrite of_int_ok by done. split; [done|].
    assert (2 ^ 1023 < 2 ^ 1024 - 2 ^ 970) by done. lia. }
  unfold Float.of_int, Float.round53. cbn [Float.mant Float.expo].
  assert (0 < Z.abs n) as Hpos by (assert (0 < 2 ^ 1023) by done; lia).
  pose proof (Z.log2_spec _ Hpos) as [Hlo Hhi].
  destruct (decide (Z.abs n < 2 ^ 1024)) as [Hmid|Hhuge].
  - assert (Z.log2 (Z.abs n) = 1023) as Hlog.
    { apply Z.log2_unique; [done|]. split; [lia|done]. }
    rewrite Hlog. change (1023 + 1 - 53) with 971.
    rewrite (decide_False (P := 971 ≤ 0)) by lia.
    cbn [Float.mant Float.expo]. change (0 + 971) with 971.
    set (d := 2 ^ 971) in *. set (M := 2 ^ 53).
    assert (0 < d ∧ 1 < M ∧ 2 ^ 1024 = M * d ∧ 2 ^ 1023 * 2 = M * d ∧
            2 ^ 970 * 2 = d ∧
            Z.even M = true ∧ Z.even (M - 1) = false ∧ Z.even (- M) = true)
      as (Hd & HM & -> & H23 & Hh & Hev1 & Hev2 & Hev3)
      by (by vm_compute).
    set (h := 2 ^ 970) in *. set (b := 2 ^ 1023) in *.
    clear Hlog Hlo Hhi.
    pose proof (Z.div_mod n d ltac:(lia)) as Hnd.
    pose proof (Z.mod_pos_bound n d Hd) as Hr.
    assert (n `div` d < M) as Hq1 by (apply Z.div_lt_upper_bound; lia).
    assert (- M ≤ n `div` d) as Hq2 by (apply Z.div_le_lower_bound; lia).
    assert (M ≤ Z.abs (Float.rne_div n d) ↔ M * d - h ≤ Z.abs n) as Hres.
    { unfold Float.rne_div.
      set (q := n `div` d) in *. set (r := n `mod` d) in *.
      destruct (decide (q = M - 1)) as [Hq|Hq3];
        [|destruct (decide (q = - M)) as [Hq|Hq4]].
      - rewrite Hq in *. rewrite Hev2. clearbody d M h b r. clear q Hq.
        repeat case_decide; lia.
      - rewrite Hq in *. rewrite Hev3. clearbody d M h b r. clear q Hq.
        repeat case_decide; lia.
      - assert (d * q ≤ d * (M - 2)) by (apply Z.mul_le_mono_nonneg_l; lia).
        assert (d * (- M + 1) ≤ d * q) by (apply Z.mul_le_mono_nonneg_l; lia).
        assert (q ≤ (if decide (2 * r < d) then q
                     else if decide (d < 2 * r) then q + 1
                     else if Z.even q then q else q + 1) ≤ q + 1) as Hb
          by (repeat case_decide; try destruct (Z.even q); lia).
        clearbody d M h b q r. lia. }
    set (res := Float.rne_div n d) in *.
    assert (M * d ≤ Z.abs res * d ↔ M ≤ Z.abs res) as Hmul.
    { clearbody d M res. split; intros; nia. }
    clearbody d M h b res.
    case_decide; split; intros; try done; [tauto|].
    exfalso. tauto.
  - split; [intros _|intros _].
    + assert (2 ^ 970 > 0) by done. lia.
    + set (k := Z.log2 (Z.abs n) + 1 - 53) in *.
      assert (1024 ≤ Z.log2 (Z.abs n)) as Hlog.
      { apply Z.log2_le_pow2; [done|lia]. }
      rewrite (decide_False (P := k ≤ 0)) by lia.
      cbn [Float.mant Float.expo]. rewrite decide_True; [done|].
      assert (0 < 2 ^ k) as Hd by (apply Z.pow_pos_nonneg; lia).
      pose proof (rne_div_error n (2 ^ k) Hd) as Herr.
      replace (Z.log2 (Z.abs n)) with (52 + k) in Hlo by lia.
      rewrite Z.pow_add_r in Hlo by lia.
      assert (2 ^ 1024 ≤ 2 ^ 52 * 2 ^ k) as Hbig2.
      { rewrite <- Z.pow_add_r by lia. apply Z.pow_le_mono_r; lia. }
      rewrite Z.add_0_l.
      set (q := Float.rne_div n (2 ^ k)) in *.
      set (d := 2 ^ k) in *. set (c := 2 ^ 52) in *.
      set (E := 2 ^ 1024) in *.
      assert (0 < c) by done. clearbody c d q E.
      assert (c ≤ Z.abs q) as Hq.
      { destruct (Z.abs_spec n) as [[? Hn]|[? Hn]]; rewrite Hn in Hlo;
          destruct (Z.abs_spec q) as [[? ->]|[? ->]]; nia. }
      etrans; [exact Hbig2|]. apply Z.mul_le_mono_nonneg_r; lia.
Qed.

Lemma n_line_ok_wide total :
  Z.abs total < 2 ^ 1024 - 2 ^ 970 → ∃ n, n_line total third = Ok n.
Proof.
  intros Htot. unfold n_line.
  destruct (Float.of_int total) as [x|e] eqn:Hx; [by eexists|].
  assert (e = OverflowError) as ->.
  { unfold Float.of_int in Hx. case_decide; congruence. }
  apply of_int_overflow_iff in Hx. lia.
Qed.

(** The outcome of [generate] by [total_trials]; the lists of the
    embedding can have any length. *)
Lemma generate_by_total s0 seed total :
  (0 ≤ total < 2 ^ 1024 - 2 ^ 970 →
   ∃ out, generate s0 seed total = Ok out) ∧
  (- (2 ^ 1024 - 2 ^ 970) < total < 0 →
   allocate total = Ok [] ∧ generate s0 seed total = Err IndexError) ∧
  (2 ^ 1024 - 2 ^ 970 ≤ Z.abs total →
   allocate total = Err OverflowError ∧
   generate s0 seed total = Err OverflowError).
Proof.
  split_and!.
  - intros Htot. destruct (n_line_ok_wide total) as [n Hn]; [lia|].
    pose proof (allocate_third _ _ Hn) as Ha.
    destruct (reconcile_ok total s0 (allocated (n `div` 2)))
      as (s1 & r & Hr & _); [lia|].
    destruct (generate_steps s0 seed _ _ _ _ Ha Hr) as (s3 & sh & _ & _ & Hgen).
    by eexists.
  - intros Htot. destruct (n_line_ok_wide total) as [n Hn]; [lia|].
    assert (0 ≤ Float.mant third) as Hm by (rewrite third_eq; by vm_compute).
    destruct (n_line_sign total third n Hm Hn) as [_ Hle].
    specialize (Hle ltac:(lia)).
    assert (n `div` 2 ≤ 0) as Hk.
    { pose proof (Z.div_mod n 2 ltac:(lia)).
      pose proof (Z.mod_pos_bound n 2 ltac:(lia)). lia. }
    pose proof (allocate_third total n Hn) as Ha.
    rewrite allocated_nil in Ha by done. split; [done|].
    unfold generate, reconcile. rewrite Ha. simpl.
    rewrite under_loop_eq, decide_False by (simpl; lia). simpl.
    by rewrite over_loop_eq, decide_True by (simpl; lia).
  - intros Htot%of_int_overflow_iff.
    assert (allocate total = Err OverflowError) as Ha.
    { unfold allocate, line_conditions.
      rewrite for_lines_cons. unfold n_per_cue, n_line. by rewrite Htot. }
    split; [done|]. unfold generate. by rewrite Ha.
Qed.

(** X11. Which exception the lines that build the list raise, from the
    allocation to the numbering, is decided by [total_trials] alone. With
    [B = 2 ^ 1024 - 2 ^ 970], the first integer [float] refuses: they raise
    [OverflowError] exactly when [|total_trials| >= B], at
    [total_trials * proportion] in the allocation phase, before any record
    exists; they raise [IndexError] exactly when [-B < total_trials < 0],
    at [del trials[idx]] in the over-shoot loop, after an allocation phase
    that went through on an empty list. *)
Theorem failure_modes s0 seed total :
  (generate s0 seed total = Err OverflowError
   ↔ 2 ^ 1024 - 2 ^ 970 ≤ Z.abs total) ∧
  (generate s0 seed total = Err IndexError
   ↔ - (2 ^ 1024 - 2 ^ 970) < total < 0) ∧
  (2 ^ 1024 - 2 ^ 970 ≤ Z.abs total → allocate total = Err OverflowError) ∧
  (- (2 ^ 1024 - 2 ^ 970) < total < 0 →
   allocate total = Ok [] ∧ over_loop total [] = Err IndexError).
Proof.
  destruct (generate_by_total s0 seed total) as (Hok & Hidx & Hovf).
  assert (0 < 2 ^ 1024 - 2 ^ 970) as HB by (by vm_compute).
  set (B := 2 ^ 1024 - 2 ^ 970) in *. clearbody B.
  destruct (decide (B ≤ Z.abs total)) as [Hbig|Hsmall].
  { destruct (Hovf Hbig) as [Ha Hgen]. rewrite Hgen.
    split_and!; [done| |done|lia]. split; [done|lia]. }
  destruct (decide (total < 0)) as [Hneg|Hpos].
  - destruct (Hidx ltac:(lia)) as [Ha Hgen]. rewrite Hgen.
    split_and!; [split; [done|lia]|split; [lia|done]|lia|].
    intros _. split; [done|].
    by rewrite over_loop_eq, decide_True by (simpl; lia).
  - destruct (Hok ltac:(lia)) as [out Hgen]. rewrite Hgen.
    split_and!; [split; [done|lia]|split; [done|lia]|lia|lia].
Qed.

(** *** The shuffle leaves the tail of the list alone *)

Lemma swap_app {A} (i j : nat) (l t : list A) :
  (i < length l)%nat → (j < length l)%nat →
  ∃ l', swap i j l = Ok l' ∧ swap i j (l ++ t) = Ok (l' ++ t) ∧
        length l' = length l.
Proof.
  intros Hi Hj. unfold swap.
  destruct (lookup_lt_is_Some_2 l i Hi) as [xi Hxi].
  destruct (lookup_lt_is_Some_2 l j Hj) as [xj Hxj].
  rewrite !lookup_app_l, Hxi, Hxj by done.
  eexists. split_and!; [done| |by rewrite !length_insert].
  f_equal. rewrite (insert_app_l l) by done.
  by rewrite insert_app_l by (by rewrite length_insert).
Qed.

Lemma shuffle_from_app {A} : ∀ (n : nat) s (l t : list A),
  (n < length l)%nat →
  ∃ s' l', shuffle_from n s l = Ok (s', l') ∧
           shuffle_from n s (l ++ t) = Ok (s', l' ++ t).
Proof.
  induction n as [|n IH]; intros s l t Hn; simpl.
  { by exists s, l. }
  pose proof (randbelow_range (S (S n)) s ltac:(lia)) as Hj.
  destruct (randbelow (S (S n)) s) as [j s1]. simpl in Hj.
  destruct (swap_app (S n) j l t) as (l1 & -> & -> & Hlen); [lia..|]. simpl.
  apply IH. lia.
Qed.

Lemma generate_lookup_num s0 seed total out (k : nat) t :
  generate s0 seed total = Ok out → out !! k = Some t →
  trial_num t = Some (Z.of_nat k + 1).
Proof.
  intros (a & s1 & r & s3 & sh & _ & _ & _ & ->)%generate_inv Hk.
  assert ((trial_num <$> number 1 sh) !! k = Some (trial_num t)) as Hnum
    by (by rewrite list_lookup_fmap, Hk).
  rewrite number_nums, list_lookup_fmap in Hnum.
  destruct (seqZ 1 (Z.of_nat (length sh)) !! k) as [i|] eqn:Hi; [|done].
  apply lookup_seqZ in Hi as [-> _]. injection Hnum as <-. f_equal. lia.
Qed.

End Generator.

(** ** The script on the concrete generator *)

Lemma Lcg_randbelow_range n s :
  (0 < n)%nat → ((Lcg.randbelow n s).1 < n)%nat.
Proof.
  intros Hn. unfold Lcg.randbelow. simpl.
  pose proof (Z.mod_pos_bound (Lcg.next s `div` 2 ^ 33) (Z.of_nat n)). lia.
Qed.

(** Every category gets one record per cue condition at 5 trials and 25 at
    150 trials. *)
Lemma n_per_cue_5 line p :
  (line, p) ∈ line_conditions → ∃ k, n_per_cue 5 p = Ok k ∧ 1 ≤ k.
Proof.
  unfold line_conditions. rewrite !elem_of_cons, elem_of_nil.
  intros [[= _ ->]|[[= _ ->]|[[= _ ->]|[]]]]; exists 1; by vm_compute.
Qed.

Lemma n_per_cue_150 line p :
  (line, p) ∈ line_conditions → ∃ k, n_per_cue 150 p = Ok k ∧ 1 ≤ k.
Proof.
  unfold line_conditions. rewrite !elem_of_cons, elem_of_nil.
  intros [[= _ ->]|[[= _ ->]|[[= _ ->]|[]]]]; exists 25; by vm_compute.
Qed.

(** C6 as stated fails at 5 trials: every category gets one record per cue
    condition, and no record of the list is ["cued"] and ["center"]. *)
Lemma coverage_counterexample :
  (∀ line p, (line, p) ∈ line_conditions →
             ∃ k, n_per_cue 5 p = Ok k ∧ 1 ≤ k) ∧
  ∃ out, generate Lcg.St Lcg.seed_state Lcg.randbelow 7 42 5 = Ok out ∧
         length out = 5%nat ∧
         ¬ ∃ t, t ∈ out ∧ cueCondition t = "cued" ∧ lineCondition t = "center".
Proof.
  split; [apply n_per_cue_5|].
  eexists. split_and!; [by vm_compute|done|].
  intros (t & Hin & Hcue & Hline).
  repeat (apply elem_of_cons in Hin as [->|Hin]; [done|]).
  by apply elem_of_nil in Hin.
Qed.

(** C7 as stated fails at -3 trials: nothing stops the script before
    allocation. The allocation phase runs to its end, on an empty list, the
    under-shoot loop does nothing, and the failure comes later, as the
    [IndexError] of the over-shoot loop. *)
Lemma fail_fast_counterexample :
  allocate (-3) = Ok [] ∧
  under_loop Lcg.St Lcg.randbelow (-3) 7 [] = Ok (7, []) ∧
  over_loop (-3) [] = Err IndexError ∧
  generate Lcg.St Lcg.seed_state Lcg.randbelow 7 42 (-3) = Err IndexError.
Proof. split_and!; vm_compute; reflexivity. Qed.

(** *** Instances *)

Lemma cardinality_witness :
  ∃ a s1 r out,
    allocate 150 = Ok a ∧
    reconcile Lcg.St Lcg.randbelow 150 7 a = Ok (s1, r) ∧
    Z.of_nat (length r) = 150 ∧
    generate Lcg.St Lcg.seed_state Lcg.randbelow 7 42 150 = Ok out ∧
    Z.of_nat (length out) = 150.
Proof.
  apply (cardinality Lcg.St Lcg.seed_state Lcg.randbelow Lcg_randbelow_range
           7 42 150).
  by vm_compute.
Defined.

Lemma sequence_integrity_witness :
  ∃ out,
    generate Lcg.St Lcg.seed_state Lcg.randbelow 7 42 10 = Ok out ∧
    trial_num <$> out = Some <$> seqZ 1 10 ∧
    (∀ (i : nat) t, out !! i = Some t → trial_num t = Some (Z.of_nat i + 1)) ∧
    NoDup (trial_num <$> out) ∧
    (∀ k, Some k ∈ trial_num <$> out ↔ 1 ≤ k ≤ 10).
Proof.
  eexists. split; [by vm_compute|].
  apply (sequence_integrity Lcg.St Lcg.seed_state Lcg.randbelow
           Lcg_randbelow_range 7 42 10).
  by vm_compute.
Defined.

Lemma under_shoot_appends_witness :
  ∃ s' added,
    under_loop Lcg.St Lcg.randbelow 3 7 [] = Ok (s', [] ++ added) ∧
    length added = 3%nat.
Proof.
  destruct (under_shoot_appends Lcg.St Lcg.randbelow Lcg_randbelow_range
              3 7 []) as (_ & s' & added & Hloop & Hlen & _).
  by exists s', added.
Defined.

Lemma coverage_lower_bound_witness :
  ∃ out,
    generate Lcg.St Lcg.seed_state Lcg.randbelow 7 42 150 = Ok out ∧
    (∀ cue line,
       cue ∈ cue_conditions → line ∈ line_conditions.*1 →
       (cue, line) ≠ ("cued", "center") → appears cue line out) ∧
    (appears "cued" "center" out ↔ 150 ≠ 5).
Proof.
  apply (coverage_lower_bound Lcg.St Lcg.seed_state Lcg.randbelow
           Lcg_randbelow_range 7 42 150).
  apply n_per_cue_150.
Defined.

Lemma nonpositive_total_witness :
  allocate (-3) = Ok [] ∧
  (-3 = 0 → generate Lcg.St Lcg.seed_state Lcg.randbelow 7 42 (-3) = Ok []) ∧
  (-3 < 0 →
   under_loop Lcg.St Lcg.randbelow (-3) 7 [] = Ok (7, []) ∧
   over_loop (-3) [] = Err IndexError ∧
   generate Lcg.St Lcg.seed_state Lcg.randbelow 7 42 (-3) = Err IndexError).
Proof.
  apply (nonpositive_total Lcg.St Lcg.seed_state Lcg.randbelow 7 42 (-3)).
  by vm_compute.
Defined.

Lemma reproducible_shuffle_witness :
  ∃ a,
    allocate 150 = Ok a ∧ Z.of_nat (length a) = 150 ∧
    generate Lcg.St Lcg.seed_state Lcg.randbelow 7 42 150
    = generate Lcg.St Lcg.seed_state Lcg.randbelow 2025 42 150.
Proof.
  eexists. split; [by vm_compute|]. split; [by vm_compute|].
  eapply (reproducible_shuffle Lcg.St Lcg.seed_state Lcg.randbelow
            Lcg_randbelow_range 7 2025 42 150); by vm_compute.
Defined.

Lemma shuffle_numbering_frame_witness :
  ∃ out,
    generate Lcg.St Lcg.seed_state Lcg.randbelow 7 42 10 = Ok out ∧
    ∃ a s1 r s3 sh,
      allocate 10 = Ok a ∧
      reconcile Lcg.St Lcg.randbelow 10 7 a = Ok (s1, r) ∧
      shuffle Lcg.St Lcg.randbelow (Lcg.seed_state 42) r = Ok (s3, sh) ∧
      out = number 1 sh ∧ sh ≡ₚ r ∧
      fields <$> out = fields <$> sh ∧
      length out = length r ∧
      fields <$> out ≡ₚ fields <$> r.
Proof.
  eexists. split; [by vm_compute|].
  apply (shuffle_numbering_frame Lcg.St Lcg.seed_state Lcg.randbelow
           Lcg_randbelow_range 7 42 10).
  by vm_compute.
Defined.

Lemma reconciliation_terminates_witness :
  ∃ s' r, reconcile Lcg.St Lcg.randbelow 3 7 [] = Ok (s', r) ∧
          Z.of_nat (length r) = 3.
Proof.
  apply (reconciliation_terminates Lcg.St Lcg.randbelow Lcg_randbelow_range
           3 7 []).
  by vm_compute.
Defined.

Lemma allocation_phase_witness : ∃ l, allocate 150 = Ok l.
Proof.
  destruct allocation_phase as [Hall _].
  destruct (Hall 150) as (ns & l & _ & Hl & _); [by vm_compute|].
  by exists l.
Defined.

(** ** The output file *)

Lemma string_length_app (a s : string) :
  String.length (a +:+ s) = (String.length a + String.length s)%nat.
Proof. induction a as [|c a IH]; [done|]. simpl. by rewrite IH. Qed.

Lemma string_app_inj_l (s a b : string) : a +:+ s = b +:+ s → a = b.
Proof.
  revert b. induction a as [|c a IH]; intros [|c' b] Heq; [done| | |].
  - apply (f_equal String.length) in Heq.
    rewrite !string_length_app in Heq. simpl in Heq. lia.
  - apply (f_equal String.length) in Heq.
    rewrite !string_length_app in Heq. simpl in Heq. lia.
  - simpl in Heq. injection Heq as -> Heq. f_equal. by apply IH.
Qed.

(** X12. The output file name determines [total_trials]: two runs write
    to the same file only if they ask for the same number of trials. The
    file the runner reads, inside its folder, is the one a run with
    [total_trials = 100] writes, and of no other. *)
Theorem output_path_names total total' :
  (output_path total = output_path total' ↔ total = total') ∧
  ("psychoPY/" +:+ output_path total = Runner.conditions_csv ↔ total = 100).
Proof.
  assert (∀ a b, output_path a = output_path b → a = b) as Hinj.
  { unfold output_path. intros a b Heq.
    apply (inj (String.app _)) in Heq.
    apply string_app_inj_l in Heq. by apply (inj pretty). }
  split; (split; [|by intros ->]).
  - apply Hinj.
  - intros Heq. apply Hinj.
    change Runner.conditions_csv with ("psychoPY/" +:+ output_path 100) in Heq.
    by apply (inj (String.app _)) in Heq.
Qed.

Example output_path_150 : output_path 150 = "illusory_line_conditions_150.csv".
Proof. by vm_compute. Qed.
Example output_path_neg : output_path (-7) = "illusory_line_conditions_-7.csv".
Proof. by vm_compute. Qed.

(** ** The shuffle on the scripted generator *)

Lemma Script_randbelow_range n s :
  (0 < n)%nat → ((Script.randbelow n s).1 < n)%nat.
Proof. intros Hn. destruct s; simpl; lia. Qed.

Lemma snoc_lookup_last {A} (l : list A) (n : nat) z :
  length l = S n → l !! n = Some z → l = take n l ++ [z].
Proof.
  intros Hlen Hz. rewrite <- (take_drop_middle l n z Hz) at 1.
  rewrite drop_ge by lia. done.
Qed.

Lemma shuffle_from_reaches {A} : ∀ (n : nat) (x x' : list A),
  length x = S n → x ≡ₚ x' →
  ∃ s s', shuffle_from Script.St Script.randbelow n s x = Ok (s', x').
Proof.
  induction n as [|n IH]; intros x x' Hlen Hperm.
  - destruct x as [|a [|??]]; try done.
    apply Permutation_singleton_l in Hperm as ->. by exists [], [].
  - assert (length x' = S (S n)) as Hlen' by (by rewrite <- Hperm).
    destruct (lookup_lt_is_Some_2 x' (S n) ltac:(lia)) as [z Hz].
    pose proof (snoc_lookup_last x' (S n) z Hlen' Hz) as Hx'.
    assert (z ∈ x) as Hin.
    { rewrite Hperm. by eapply list_elem_of_lookup_2. }
    apply list_elem_of_lookup_1 in Hin as [j Hj].
    pose proof (lookup_lt_Some _ _ _ Hj) as Hjlt.
    destruct (lookup_lt_is_Some_2 x (S n) ltac:(lia)) as [xi Hxi].
    set (x1 := <[j := xi]> (<[S n := z]> x)).
    assert (x1 ≡ₚ x) as Hperm1 by (by apply insert_insert_perm).
    assert (length x1 = S (S n)) as Hlen1 by (by rewrite Hperm1).
    assert (x1 !! S n = Some z) as Hlast.
    { subst x1. destruct (decide (j = S n)) as [->|Hne].
      - rewrite Hj in Hxi. injection Hxi as ->.
        rewrite list_lookup_insert_eq; [done|]. rewrite length_insert. lia.
      - rewrite list_lookup_insert_ne by done.
        rewrite list_lookup_insert_eq; [done|lia]. }
    pose proof (snoc_lookup_last x1 (S n) z Hlen1 Hlast) as Hx1.
    assert (take (S n) x1 ≡ₚ take (S n) x') as Hperm2.
    { apply (inj (.++ [z])). rewrite <- Hx1, <- Hx'. by rewrite Hperm1. }
    destruct (IH (take (S n) x1) (take (S n) x')) as (s1 & s' & Hs); [|done|].
    { rewrite length_take. lia. }
    destruct (shuffle_from_app Script.St Script.randbelow
                Script_randbelow_range n s1 (take (S n) x1) [z])
      as (s2 & l2 & Hs2 & Happ).
    { rewrite length_take. lia. }
    rewrite Hs in Hs2. injection Hs2 as <- <-.
    exists (j :: s1), s'. simpl.
    replace (j `min` S n)%nat with j by lia.
    unfold swap. rewrite Hj, Hxi. simpl. fold x1.
    by rewrite Hx1, Hx'.
Qed.

(** X13. The shuffle can put the list in any order: for every
    rearrangement of a list there is a run of [_randbelow] results on which
    [random.shuffle] returns it. *)
Theorem shuffle_reaches_every_order {A} (x x' : list A) :
  x ≡ₚ x' →
  ∃ s s', shuffle Script.St Script.randbelow s x = Ok (s', x').
Proof.
  intros Hperm. unfold shuffle. destruct x as [|a x].
  - apply Permutation_nil_l in Hperm as <-. by exists [], [].
  - apply shuffle_from_reaches; [simpl; lia|done].
Qed.

(** ** The runner *)

Section RunnerProperties.

Context {Time : Type} (line_complete : Z → Time → bool).

Local Ltac stopped H :=
  injection H as <- <-; exists 0%nat;
  split_and!; [simpl; lia|done|split; [done|by simpl]].

(** The rows of the first [m] trials when numbering starts at [i]. *)
Lemma run_from_prefix (trials : list trial) : ∀ i input rows e,
  Runner.run_from line_complete i trials input = (rows, e) →
  ∃ m : nat,
    (m ≤ length trials)%nat ∧
    Runner.row_conditions <$> rows
    = zip_with (λ k t, (k, cueCondition t, lineCondition t))
               (seqZ i (Z.of_nat m)) (take m trials) ∧
    (e = Runner.Saved ↔ m = length trials).
Proof.
  induction trials as [|t trials IH]; intros i input rows e Hrun.
  { injection Hrun as <- <-. by exists 0%nat. }
  simpl in Hrun.
  destruct input as [|ev input]; [stopped Hrun|].
  destruct (Runner.animate _ _ _ _) as [[|]|]; [|stopped Hrun..].
  destruct (Runner.record_response i t (Runner.keys ev)) as [r|e'] eqn:Hresp.
  - destruct (Runner.run_from line_complete (i + 1) trials input)
      as [rows' e'] eqn:Hrest.
    injection Hrun as <- <-.
    destruct (IH _ _ _ _ Hrest) as (m & Hm & Hrows & He).
    exists (S m). split_and!; [simpl; lia| |].
    + rewrite fmap_cons, Hrows, Nat2Z.inj_succ, (seqZ_cons i) by lia.
      simpl. replace (Z.pred (Z.succ (Z.of_nat m))) with (Z.of_nat m) by lia.
      replace (Z.succ i) with (i + 1) by lia.
      f_equal. unfold Runner.record_response in Hresp.
      destruct (Runner.keys ev) as [[|[key time] ?]|];
        [done| |by injection Hresp as <-].
      case_decide; [done|]. by injection Hresp as <-.
    + rewrite He. simpl. lia.
  - assert (e' ≠ Runner.Saved) as Hne.
    { unfold Runner.record_response in Hresp.
      destruct (Runner.keys ev) as [[|[key time] ?]|]; [| |done].
      - by injection Hresp as <-.
      - case_decide; [|done]. by injection Hresp as <-. }
    stopped Hrun.
Qed.

(** Every row comes from the events of its own trial, and the trial after
    the last row, if there is one, is the one the session is left in. *)
Lemma run_from_outcomes (trials : list trial) : ∀ i input rows e,
  Runner.run_from line_complete i trials input = (rows, e) →
  (∀ (k : nat) r,
     rows !! k = Some r →
     ∃ t ev, trials !! k = Some t ∧ input !! k = Some ev ∧
             Runner.trial_outcome line_complete (i + Z.of_nat k) t ev
             = inl r) ∧
  (∀ t, trials !! length rows = Some t →
        match input !! length rows with
        | None => e = Runner.Waiting
        | Some ev =>
            Runner.trial_outcome line_complete
              (i + Z.of_nat (length rows)) t ev = inr e
        end).
Proof.
  induction trials as [|t trials IH]; intros i input rows e Hrun.
  { injection Hrun as <- <-. split; [by intros [|?] ?|done]. }
  simpl in Hrun. destruct input as [|ev input].
  { injection Hrun as <- <-. split; [by intros [|?] ?|by intros ? [= <-]]. }
  assert (Runner.trial_outcome line_complete i t ev
          = Runner.trial_outcome line_complete i t ev) as Hout by reflexivity.
  unfold Runner.trial_outcome at 2 in Hout.
  destruct (Runner.animate _ _ _ _) as [[|]|];
    [destruct (Runner.record_response i t (Runner.keys ev)) as [r|e']|..].
  - destruct (Runner.run_from line_complete (i + 1) trials input)
      as [rows' e'] eqn:Hrest.
    injection Hrun as <- <-. destruct (IH _ _ _ _ Hrest) as [Hrows Hnext].
    split.
    + intros [|k] r' Hk.
      * injection Hk as <-. exists t, ev. by rewrite Z.add_0_r.
      * destruct (Hrows k r' Hk) as (t' & ev' & Ht & Hev & Hk').
        exists t', ev'. split_and!; [done..|].
        by replace (i + Z.of_nat (S k)) with (i + 1 + Z.of_nat k) by lia.
    + intros t' Ht. simpl in Ht. specialize (Hnext t' Ht). simpl.
      by replace (i + Z.of_nat (S (length rows')))
        with (i + 1 + Z.of_nat (length rows')) by lia.
  - injection Hrun as <- <-. split; [by intros [|?] ?|].
    intros t' [= <-]. simpl. by rewrite Z.add_0_r.
  - injection Hrun as <- <-. split; [by intros [|?] ?|].
    intros t' [= <-]. simpl. by rewrite Z.add_0_r.
  - injection Hrun as <- <-. split; [by intros [|?] ?|].
    intros t' [= <-]. simpl. by rewrite Z.add_0_r.
Qed.

(** X14. The rows of a session are those of the first [m] trials, in
    order and numbered from 1, with the conditions of the trial list, and
    each of them is the row the loop body records from the events of its
    own trial. An escape at the start leaves the session with no row. After
    the start, the trial that follows the last row is the one the session
    is left in: its events are missing, or the loop body ends the session
    there, and it gets no row. The script gets past the loop, to its calls
    of [saveAsWideText] and [saveAsPickle], exactly when there was no
    escape at the start and every trial got its row. *)
Theorem rows_follow_the_trials start_escape trials input rows e :
  Runner.run line_complete start_escape trials input = (rows, e) →
  ∃ m : nat,
    (m ≤ length trials)%nat ∧
    Runner.row_conditions <$> rows
    = zip_with (λ k t, (k, cueCondition t, lineCondition t))
               (seqZ 1 (Z.of_nat m)) (take m trials) ∧
    (e = Runner.Saved → m = length trials) ∧
    (start_escape = false → m = length trials → e = Runner.Saved) ∧
    length rows = m ∧
    (e = Runner.Saved → start_escape = false) ∧
    (start_escape = true → m = 0%nat ∧ e = Runner.Quit) ∧
    (∀ (k : nat) r,
       rows !! k = Some r →
       ∃ t ev, trials !! k = Some t ∧ input !! k = Some ev ∧
               Runner.trial_outcome line_complete (Z.of_nat k + 1) t ev
               = inl r) ∧
    (start_escape = false →
     ∀ t, trials !! m = Some t →
          match input !! m with
          | None => e = Runner.Waiting
          | Some ev =>
              Runner.trial_outcome line_complete (Z.of_nat m + 1) t ev
              = inr e
          end).
Proof.
  unfold Runner.run. destruct start_escape.
  - intros [= <- <-]. exists 0%nat. split_and!; [lia|done..].
  - intros Hrun.
    destruct (run_from_prefix _ _ _ _ _ Hrun) as (m & Hm & Hrows & He).
    destruct (run_from_outcomes _ _ _ _ _ Hrun) as [Hout Hleft].
    assert (length rows = m) as Hlen.
    { apply (f_equal length) in Hrows.
      rewrite length_fmap, length_zip_with, length_seqZ, length_take in Hrows.
      lia. }
    rewrite Hlen in Hleft.
    exists m. split_and!; [done..|by apply He| |done|done|done| |].
    + intros _. by apply He.
    + intros k r Hk. rewrite Z.add_comm. by apply Hout.
    + intros _ t Ht. rewrite Z.add_comm. by apply Hleft.
Qed.

(** X15. A session nobody leaves runs to the end: when there is input
    for every trial, every line gets drawn and no response is escape, the
    data are saved with one row per trial. *)
Theorem undisturbed_session trials input :
  Forall2 (Runner.undisturbed line_complete) trials input →
  ∃ rows, Runner.run line_complete false trials input = (rows, Runner.Saved) ∧
          length rows = length trials.
Proof.
  unfold Runner.run. generalize 1. intros i Hall. revert i.
  induction Hall as [|t ev trials input [Hanim Hkeys] _ IH]; intros i.
  { by exists []. }
  simpl. rewrite Hanim.
  destruct (IH (i + 1)) as (rows & Hrun & Hlen). rewrite Hrun.
  destruct Hkeys as [->|(key & time & rest & -> & Hne)]; simpl.
  - eexists. split; [done|]. simpl. by rewrite Hlen.
  - rewrite decide_False by done. eexists. split; [done|].
    simpl. by rewrite Hlen.
Qed.

End RunnerProperties.

(** X16. The geometry of a trial: whatever the line condition, the line
    spans the 8 degrees between the two circles, at x = -4 and x = 4; it
    starts on the right, at x = 4, exactly when the line condition is
    ["congruent"]; it is drawn at once exactly when the line condition is
    neither ["congruent"] nor ["incongruent"]; and it starts where the cue
    is exactly when the trial is ["cued"] and ["congruent"], or neither
    ["cued"] nor ["congruent"]. *)
Theorem stimulus_geometry cue line :
  Runner.distance line = 8 ∧
  (∃ x_start x_end instantly,
     Runner.line_parameters line = (x_start, x_end, instantly) ∧
     x_end = - x_start ∧ (x_start = 4 ↔ line = "congruent") ∧
     (instantly = true ↔ line ≠ "congruent" ∧ line ≠ "incongruent") ∧
     (Runner.cue_x cue = x_start ↔ (cue = "cued" ↔ line = "congruent"))).
Proof.
  unfold Runner.distance, Runner.line_parameters, Runner.cue_x.
  repeat case_decide; (split; [done|]); eexists _, _, _;
    (split; [done|]); subst; split_and!; try done; split; try done;
    try tauto; try (intros [? ?]; done); intros; exfalso; tauto.
Qed.

(** ** The runner on a generated list *)

Section GeneratedSession.

Context {St Time : Type}.
Variable seed_state : Z → St.
Variable randbelow : nat → St → nat * St.
Variable line_complete : Z → Time → bool.

(** X17. The trial number the runner counts is the sequence number the
    generator wrote: every row of a session over a generated list carries
    the [trial_num], the cue condition and the line condition of the record
    at its position in the list. *)
Theorem runner_numbering_agrees s0 seed total out start_escape input rows e :
  generate St seed_state randbelow s0 seed total = Ok out →
  Runner.run line_complete start_escape out input = (rows, e) →
  ∀ (k : nat) r,
    rows !! k = Some r →
    ∃ t, out !! k = Some t ∧
         trial_num t = Some (Runner.trial_n r) ∧
         cueCondition t = Runner.row_cue r ∧
         lineCondition t = Runner.row_line r.
Proof.
  intros Hgen Hrun k r Hk. unfold Runner.run in Hrun.
  destruct start_escape; [by injection Hrun as <- <-|].
  apply run_from_prefix in Hrun as (m & Hm & Hrows & _).
  assert ((Runner.row_conditions <$> rows) !! k
          = Some (Runner.row_conditions r)) as Hrow
    by (by rewrite list_lookup_fmap, Hk).
  rewrite Hrows in Hrow.
  apply lookup_zip_with_Some in Hrow as (i & t & Heq & Hi & Ht).
  apply lookup_seqZ in Hi as [-> _].
  apply lookup_take_Some in Ht as [Ht _].
  exists t. unfold Runner.row_conditions in Heq. injection Heq as Hn Hc Hl.
  split_and!; [done| |done..].
  rewrite (generate_lookup_num _ _ _ _ _ _ _ _ _ Hgen Ht).
  f_equal. lia.
Qed.

End GeneratedSession.

(** ** Instances of the further properties *)

Lemma third_acts_as_one_third_witness :
  n_line 100 third = Ok 33 ∧ n_per_cue 100 third = Ok 16.
Proof.
  destruct (third_acts_as_one_third 100) as (H1 & _ & H2 & _);
    [by vm_compute|].
  split; [exact H1|exact H2].
Defined.

Lemma reconciliation_is_small_witness :
  ∃ a s1 r,
    allocate 100 = Ok a ∧ Z.of_nat (length a) = 96 ∧
    reconcile Lcg.St Lcg.randbelow 100 7 a = Ok (s1, r).
Proof.
  destruct (reconciliation_is_small Lcg.St Lcg.randbelow Lcg_randbelow_range
              7 100) as (a & s1 & r & Ha & Hlen & Hr & _); [by vm_compute|].
  exists a, s1, r. split; [exact Ha|]. split; [exact Hlen|exact Hr].
Defined.

Lemma over_shoot_fallback_unused_witness :
  ∃ a s1 r,
    allocate 5 = Ok a ∧ reconcile Lcg.St Lcg.randbelow 5 7 a = Ok (s1, r).
Proof.
  destruct (over_shoot_fallback_unused Lcg.St Lcg.randbelow
              Lcg_randbelow_range 7 5) as (a & s1 & r & Ha & Hr & _);
    [by vm_compute|].
  exists a, s1, r. split; [exact Ha|exact Hr].
Defined.

Lemma balanced_multiples_of_six_witness :
  ∃ out,
    generate Lcg.St Lcg.seed_state Lcg.randbelow 7 42 150 = Ok out ∧
    ∀ cue line,
      cue ∈ cue_conditions → line ∈ line_conditions.*1 →
      Z.of_nat (count cue line out) = 25.
Proof.
  apply (balanced_multiples_of_six Lcg.St Lcg.seed_state Lcg.randbelow
           Lcg_randbelow_range 7 42 150); by vm_compute.
Defined.

Lemma center_counts_witness :
  ∃ out,
    generate Lcg.St Lcg.seed_state Lcg.randbelow 7 42 100 = Ok out ∧
    Z.of_nat (count "cued" "center" out) = 16 ∧
    Z.of_nat (count "uncued" "center" out) = 16.
Proof.
  apply (center_counts Lcg.St Lcg.seed_state Lcg.randbelow
           Lcg_randbelow_range 7 42 100); by vm_compute.
Defined.

Lemma cue_balance_witness :
  ∃ out,
    generate Lcg.St Lcg.seed_state Lcg.randbelow 7 42 100 = Ok out ∧
    (∀ line, line ∈ line_conditions.*1 →
             Z.abs (Z.of_nat (count "cued" line out)
                    - Z.of_nat (count "uncued" line out)) ≤ 4) ∧
    Z.abs (Z.of_nat (count "cued" "center" out)
           - Z.of_nat (count "uncued" "center" out)) ≤ 1.
Proof.
  apply (cue_balance Lcg.St Lcg.seed_state Lcg.randbelow
           Lcg_randbelow_range 7 42 100); by vm_compute.
Defined.

Lemma output_vocabulary_witness :
  ∃ out,
    generate Lcg.St Lcg.seed_state Lcg.randbelow 7 42 10 = Ok out ∧
    Z.of_nat (count "cued" "congruent" out + count "uncued" "congruent" out
              + count "cued" "incongruent" out
              + count "uncued" "incongruent" out
              + count "cued" "center" out + count "uncued" "center" out)
    = 10.
Proof.
  eexists. split; [vm_compute; reflexivity|].
  apply (output_vocabulary Lcg.St Lcg.seed_state Lcg.randbelow
           Lcg_randbelow_range 7 42 10).
  vm_compute; reflexivity.
Defined.

Lemma seed_only_reorders_witness :
  ∃ out out',
    generate Lcg.St Lcg.seed_state Lcg.randbelow 7 42 10 = Ok out ∧
    generate Lcg.St Lcg.seed_state Lcg.randbelow 7 43 10 = Ok out' ∧
    fields <$> out ≡ₚ fields <$> out'.
Proof.
  eassert (generate Lcg.St Lcg.seed_state Lcg.randbelow 7 42 10 = Ok _)
    as Hgen by (vm_compute; reflexivity).
  destruct (seed_only_reorders Lcg.St Lcg.seed_state Lcg.randbelow
              Lcg_randbelow_range 7 42 43 10 _ Hgen) as (out' & H1 & H2 & _).
  eexists _, out'. split; [exact Hgen|]. split; [exact H1|exact H2].
Defined.

Lemma coverage_iff_witness :
  ∃ out,
    generate Lcg.St Lcg.seed_state Lcg.randbelow 7 42 100 = Ok out ∧
    ((∀ cue line, cue ∈ cue_conditions → line ∈ line_conditions.*1 →
                  appears cue line out) ↔ 6 ≤ 100) ∧
    ((∃ t, t ∈ out ∧ lineCondition t = "center") ↔ 5 ≤ 100).
Proof.
  apply (coverage_iff Lcg.St Lcg.seed_state Lcg.randbelow
           Lcg_randbelow_range 7 42 100); by vm_compute.
Defined.

Lemma reconcile_idempotent_witness :
  ∃ r, reconcile Lcg.St Lcg.randbelow 3 7 [] = Ok (Lcg.next (Lcg.next
         (Lcg.next (Lcg.next (Lcg.next (Lcg.next 7))))), r) ∧
       reconcile Lcg.St Lcg.randbelow 3 9 r = Ok (9, r).
Proof.
  eexists. split; [vm_compute; reflexivity|].
  eapply (reconcile_idempotent Lcg.St Lcg.randbelow Lcg_randbelow_range
            3 7 [] _ _ 9).
  vm_compute; reflexivity.
Defined.

Lemma failure_modes_witness :
  generate Lcg.St Lcg.seed_state Lcg.randbelow 7 42 (2 ^ 1024)
  = Err OverflowError ∧
  generate Lcg.St Lcg.seed_state Lcg.randbelow 7 42 (-3) = Err IndexError ∧
  allocate (2 ^ 1024) = Err OverflowError ∧
  allocate (-3) = Ok [] ∧ over_loop (-3) [] = Err IndexError.
Proof.
  assert (- (2 ^ 1024 - 2 ^ 970) < -3 < 0) as B2 by (by vm_compute).
  assert (2 ^ 1024 - 2 ^ 970 ≤ Z.abs (2 ^ 1024)) as B3 by (by vm_compute).
  split; [|split; [|split]].
  - exact (proj2 (proj1 (failure_modes Lcg.St Lcg.seed_state Lcg.randbelow
                           Lcg_randbelow_range 7 42 (2 ^ 1024))) B3).
  - exact (proj2 (proj1 (proj2 (failure_modes Lcg.St Lcg.seed_state
                                  Lcg.randbelow Lcg_randbelow_range
                                  7 42 (-3)))) B2).
  - exact (proj1 (proj2 (proj2 (failure_modes Lcg.St Lcg.seed_state
                                  Lcg.randbelow Lcg_randbelow_range
                                  7 42 (2 ^ 1024)))) B3).
  - exact (proj2 (proj2 (proj2 (failure_modes Lcg.St Lcg.seed_state
                                  Lcg.randbelow Lcg_randbelow_range
                                  7 42 (-3)))) B2).
Defined.

Lemma shuffle_reaches_every_order_witness :
  ∃ s s', shuffle Script.St Script.randbelow s [1; 2; 3] = Ok (s', [3; 1; 2]).
Proof.
  apply shuffle_reaches_every_order.
  symmetry. apply (Permutation_cons_append [1; 2] 3).
Defined.

Lemma rows_follow_the_trials_witness :
  ∃ m : nat,
    length [Runner.mkRow 1 "cued" "center" (Some "q") (Some 0)] = m ∧
    (m ≤ 2)%nat ∧
    Runner.row_conditions
      <$> [Runner.mkRow 1 "cued" "center" (Some "q") (Some 0)]
    = zip_with (λ k t, (k, cueCondition t, lineCondition t))
               (seqZ 1 (Z.of_nat m))
               (take m [mkTrial "cued" "center" (Some 1);
                        mkTrial "uncued" "congruent" (Some 2)]) ∧
    (Runner.Quit = Runner.Saved → m = 2%nat).
Proof.
  destruct (rows_follow_the_trials (λ _ t, bool_decide (40 ≤ t)) false
              [mkTrial "cued" "center" (Some 1);
               mkTrial "uncued" "congruent" (Some 2)]
              [Runner.mkEvents [(false, 0)] (Some [("q", 0)]);
               Runner.mkEvents [(false, 10); (true, 20)] None]
              [Runner.mkRow 1 "cued" "center" (Some "q") (Some 0)]
              Runner.Quit) as (m & Hm & Hrows & Hsaved & _ & Hlen & _);
    [vm_compute; reflexivity|].
  exists m. split; [exact Hlen|]. split; [exact Hm|].
  split; [exact Hrows|exact Hsaved].
Defined.

Lemma undisturbed_session_witness :
  ∃ rows,
    Runner.run (λ _ t, bool_decide (40 ≤ t)) false
      [mkTrial "cued" "center" (Some 1); mkTrial "uncued" "congruent" (Some 2)]
      [Runner.mkEvents [(false, 0)] (Some [("q", 0)]);
       Runner.mkEvents [(false, 10); (false, 50)] None]
    = (rows, Runner.Saved) ∧ length rows = 2%nat.
Proof.
  apply (undisturbed_session (λ _ t, bool_decide (40 ≤ t))).
  constructor; [|constructor; [|constructor]].
  - split; [vm_compute; reflexivity|]. right.
    exists "q", 0, []. split; [reflexivity|discriminate].
  - split; [vm_compute; reflexivity|]. by left.
Defined.

Lemma runner_numbering_agrees_witness :
  ∃ out rows e,
    generate Lcg.St Lcg.seed_state Lcg.randbelow 7 42 3 = Ok out ∧
    Runner.run (λ _ t, bool_decide (40 ≤ t)) false out
      [Runner.mkEvents [(false, 50)] None;
       Runner.mkEvents [(false, 50)] (Some [("escape", 7)])] = (rows, e) ∧
    ∀ (k : nat) r,
      rows !! k = Some r →
      ∃ t, out !! k = Some t ∧
           trial_num t = Some (Runner.trial_n r) ∧
           cueCondition t = Runner.row_cue r ∧
           lineCondition t = Runner.row_line r.
Proof.
  eexists _, _, _. split; [vm_compute; reflexivity|].
  split; [vm_compute; reflexivity|].
  eapply (runner_numbering_agrees Lcg.seed_state Lcg.randbelow
           (λ _ t, bool_decide (40 ≤ t)) 7 42 3 _ false
           [Runner.mkEvents [(false, 50)] None;
            Runner.mkEvents [(false, 50)] (Some [("escape", 7)])]);
    vm_compute; reflexivity.
Defined.
